(** * locast2dvr: the HTTP interface (src/locast2dvr/http/interface.py)

    A shallow embedding of the Flask application built by [HTTPInterface]:
    the device-emulation handlers (lineup status, m3u, lineup.json, config,
    lineup.post) and the two watch handlers with the ffmpeg subprocess, the
    stderr logging thread and the [_stream] generator.

    Python values are modelled by [pyval], dictionaries by [gmap string _],
    exceptions by the [result] monad, and everything that touches the
    operating system (processes, threads, the log) by explicit state passing
    over [world]. *)

From Stdlib Require Import ZArith String Ascii List.
From stdpp Require Import base option list strings gmap pretty.

Open Scope Z_scope.
Open Scope string_scope.

(** ** Python values *)

(** The scalar values a station snapshot, the configuration and the query
    string hold (JSON scalars). *)
Inductive pyval :=
  | PyNone
  | PyBool (b : bool)
  | PyInt (z : Z)
  | PyStr (s : string).

#[global] Instance pyval_eq_dec : EqDecision pyval.
Proof. solve_decision. Defined.

#[global] Instance pyval_inhabited : Inhabited pyval := populate PyNone.

(** [bool(v)]: None, False, 0 and the empty string are falsy. *)
Definition truthy (v : pyval) : bool :=
  match v with
  | PyNone => false
  | PyBool b => b
  | PyInt z => negb (z =? 0)%Z
  | PyStr s => negb (String.eqb s "")
  end.

(** [str(v)], which is also what an f-string placeholder [{v}] renders. *)
Definition py_str (v : pyval) : string :=
  match v with
  | PyNone => "None"
  | PyBool true => "True"
  | PyBool false => "False"
  | PyInt z => pretty z
  | PyStr s => s
  end.

(** [a == b] *)
Definition py_eq (a b : pyval) : bool := bool_decide (a = b).

(** JSON documents handed to [jsonify]: [JDict] is a dictionary literal of
    the handler, in the order it is written; [JMap] is a dictionary that
    arrives as such (a station, the configuration). *)
#[warnings="-register-all"] Inductive json :=
  | JVal (v : pyval)
  | JList (l : list json)
  | JDict (l : list (string * json))
  | JMap (d : gmap string pyval).

(** ** Exceptions *)

Inductive exn :=
  | KeyError (k : string)
  | AttributeError (a : string)
  | TypeError
  | ValueError
  | UnicodeDecodeError
  | OverflowError
  | MemoryError
  | UpstreamError (msg : string)
  | OSError
  | GeneratorExit
  | SystemError.

Inductive result (A : Type) :=
  | Return (a : A)
  | Raise (e : exn).
Arguments Return {A} a.
Arguments Raise {A} e.

#[global] Instance result_ret : MRet result := @Return.
#[global] Instance result_bind : MBind result := λ A B f m,
  match m with
  | Return a => f a
  | Raise e => Raise e
  end.

Definition is_raise {A} (r : result A) : bool :=
  match r with Raise _ => true | Return _ => false end.

(** ** Dictionaries *)

(** [d.get(k)]: the value, or None when the key is missing. *)
Definition dict_get (d : gmap string pyval) (k : string) : pyval :=
  default PyNone (d !! k).

(** [d[k]]: raises KeyError when the key is missing. *)
Definition dict_item (d : gmap string pyval) (k : string) : result pyval :=
  match d !! k with
  | Some v => Return v
  | None => Raise (KeyError k)
  end.

(** [a or b], with [b] evaluated only when [a] is falsy. *)
Definition py_or (a : pyval) (b : result pyval) : result pyval :=
  if truthy a then Return a else b.

(** ** The collaborators of [HTTPInterface] *)

(** Modelled from the spec: [locast2dvr.utils.Configuration] is not part of
    the sources at hand.  The handlers read it through attributes
    ([config.multiplex], ...) and convert it with [dict(config)], so it is a
    finite map from option names to values; reading an option that is not
    there raises AttributeError. *)
Abbreviation Configuration := (gmap string pyval).

Definition getattr (c : Configuration) (name : string) : result pyval :=
  match c !! name with
  | Some v => Return v
  | None => Raise (AttributeError name)
  end.

(** A station snapshot is the dictionary decoded from the upstream JSON. *)
Abbreviation Station := (gmap string pyval).

(** Modelled from the spec: [locast2dvr.locast.LocastService] is not part of
    the sources at hand.  Its contract is
    [getStations() -> ordered sequence of Station] and
    [resolveStreamURI(channelId) -> URI, fails with NotFound/Unavailable]. *)
Record LocastService := {
  city : string;
  get_stations : list Station;
  get_station_stream_uri : string → result string;
}.

(** ** Text

    A [str] is held as its UTF-8 encoding: a [string] is the sequence of
    the bytes, and a character is one to four of them.  ([re] and
    [str.rstrip] work on characters, not on bytes.) *)

(** [k] continuation bytes at the head of [r], added to the bits [acc] of
    the leading byte. *)
Fixpoint utf8_tail (k : nat) (acc : N) (r : string) : option N :=
  match k with
  | O => Some acc
  | S k' =>
      match r with
      | String b r' =>
          let n := N_of_ascii b in
          if ((128 <=? n) && (n <? 192))%N
          then utf8_tail k' (acc * 64 + (n - 128))%N r'
          else None
      | EmptyString => None
      end
  end.

(** The character at the head of [s]: its code point, and how many bytes
    it takes. *)
Definition utf8_head (s : string) : option (N * nat) :=
  match s with
  | EmptyString => None
  | String a r =>
      let n := N_of_ascii a in
      if (n <? 128)%N then Some (n, 1%nat)
      else if (n <? 192)%N then None
      else if (n <? 224)%N
           then cp ← utf8_tail 1 (n - 192)%N r; Some (cp, 2%nat)
      else if (n <? 240)%N
           then cp ← utf8_tail 2 (n - 224)%N r; Some (cp, 3%nat)
      else if (n <? 248)%N
           then cp ← utf8_tail 3 (n - 240)%N r; Some (cp, 4%nat)
      else None
  end.

(** The width in bytes of the character at the head of [s] when it passes
    [test], and [0] when it does not, or when there is none. *)
Definition head_width (test : N → bool) (s : string) : nat :=
  match utf8_head s with
  | Some (cp, k) => if test cp then k else 0%nat
  | None => 0%nat
  end.

(** All of [s] is characters that pass [test], once [pending] bytes of a
    character that did are behind. *)
Fixpoint all_chars (test : N → bool) (pending : nat) (s : string) : bool :=
  match s with
  | EmptyString => match pending with O => true | S _ => false end
  | String a r =>
      match pending with
      | S k => all_chars test k r
      | O =>
          match head_width test s with
          | O => false
          | S k => all_chars test k r
          end
      end
  end.

(** The zeros of the decimal digits (category Nd) of Unicode 14.0, the
    database of CPython 3.11: each is followed by its digits one to nine. *)
Definition decimal_zeros : list N :=
  [0x30; 0x660; 0x6f0; 0x7c0; 0x966; 0x9e6; 0xa66; 0xae6; 0xb66; 0xbe6;
   0xc66; 0xce6; 0xd66; 0xde6; 0xe50; 0xed0; 0xf20; 0x1040; 0x1090; 0x17e0;
   0x1810; 0x1946; 0x19d0; 0x1a80; 0x1a90; 0x1b50; 0x1bb0; 0x1c40; 0x1c50;
   0xa620; 0xa8d0; 0xa900; 0xa9d0; 0xa9f0; 0xaa50; 0xabf0; 0xff10; 0x104a0;
   0x10d30; 0x11066; 0x110f0; 0x11136; 0x111d0; 0x112f0; 0x11450; 0x114d0;
   0x11650; 0x116c0; 0x11730; 0x118e0; 0x11950; 0x11c50; 0x11d50; 0x11da0;
   0x16a60; 0x16ac0; 0x16b50; 0x1d7ce; 0x1d7d8; 0x1d7e2; 0x1d7ec; 0x1d7f6;
   0x1e140; 0x1e2f0; 0x1e950; 0x1fbf0]%N.

(** What [\d] matches in a [str] pattern: a decimal digit of any script. *)
Definition is_decimal (cp : N) : bool :=
  existsb (λ zero, (zero <=? cp) && (cp <=? zero + 9))%N decimal_zeros.

(** What [str.rstrip()] strips, and [str.isspace] accepts: the white space
    of Unicode and the four separators of ASCII. *)
Definition is_space (cp : N) : bool :=
  ((0x09 <=? cp) && (cp <=? 0x0d) || (0x1c <=? cp) && (cp <=? 0x20)
   || (cp =? 0x85) || (cp =? 0xa0) || (cp =? 0x1680)
   || (0x2000 <=? cp) && (cp <=? 0x200a) || (cp =? 0x2028) || (cp =? 0x2029)
   || (cp =? 0x202f) || (cp =? 0x205f) || (cp =? 0x3000))%N.

(** [s.rstrip()]: [s] without the white space at its end. *)
Fixpoint rstrip (s : string) : string :=
  match s with
  | EmptyString => ""
  | String a r => if all_chars is_space 0 s then "" else String a (rstrip r)
  end.

(** ** [name_only]: [re.match(r'\d+\.\d+ (.+)', value)] *)

(** The longest prefix of decimal digits and what follows it, once
    [pending] bytes of a digit are behind. *)
Fixpoint span_digits_from (pending : nat) (s : string) : string * string :=
  match s with
  | EmptyString => ("", "")
  | String a r =>
      match pending with
      | S k => let '(d, t) := span_digits_from k r in (String a d, t)
      | O =>
          match head_width is_decimal s with
          | O => ("", s)
          | S k => let '(d, t) := span_digits_from k r in (String a d, t)
          end
      end
  end.

Definition span_digits (s : string) : string * string :=
  span_digits_from 0 s.

(** What a greedy [.+] takes: [.] matches every character but the newline. *)
Fixpoint dot_plus (s : string) : string :=
  match s with
  | String a r => if Ascii.eqb a "010" then "" else String a (dot_plus r)
  | EmptyString => ""
  end.

(** The match is anchored at the start.  Each [\d+] is followed by a
    character that is not a digit, so it takes all the digits there are. *)
Definition re_match_callsign (value : string) : option string :=
  let '(d1, r1) := span_digits value in
  if String.eqb d1 "" then None else
  match r1 with
  | String "." r2 =>
      let '(d2, r3) := span_digits r2 in
      if String.eqb d2 "" then None else
      match r3 with
      | String " " r4 =>
          let g := dot_plus r4 in
          if String.eqb g "" then None else Some g
      | _ => None
      end
  | _ => None
  end.

(** [re.match] raises TypeError on anything but a string. *)
Definition name_only (value : pyval) : result string :=
  match value with
  | PyStr s =>
      match re_match_callsign s with
      | Some g => Return g
      | None => Return s
      end
  | _ => Raise TypeError
  end.

(** ** Strings *)

(** The double quote, for the f-strings that contain one. *)
Definition dq : string := String "034" "".

(** [sep.join(items)]: raises TypeError on an item that is not a string. *)
Fixpoint str_join (sep : string) (items : list pyval) : result string :=
  match items with
  | [] => Return ""
  | [PyStr s] => Return s
  | PyStr s :: rest => r ← str_join sep rest; Return (s +:+ sep +:+ r)
  | _ :: _ => Raise TypeError
  end.

(** ** The application: what the handlers close over *)

(** The frame of [HTTPInterface]: its parameters and [host_and_port].  The
    handlers are nested functions; they read these names as free variables. *)
Record App := {
  config : Configuration;
  port : Z;
  uid : string;
  locast_service : LocastService;
  station_scan : bool;
  host_and_port : string;
}.

Definition HTTPInterface (config : Configuration) (port : Z) (uid : string)
    (locast_service : LocastService) (station_scan : bool) : result App :=
  bind_address ← getattr config "bind_address";
  Return {| config := config; port := port; uid := uid;
            locast_service := locast_service; station_scan := station_scan;
            host_and_port := py_str bind_address +:+ ":" +:+ pretty port |}.

(** ** Device endpoints *)

Definition discover_json (app : App) : result json :=
  device_model ← getattr (config app) "device_model";
  device_firmware ← getattr (config app) "device_firmware";
  tuner_count ← getattr (config app) "tuner_count";
  device_version ← getattr (config app) "device_version";
  Return (JDict [
    ("FriendlyName", JVal (PyStr (city (locast_service app))));
    ("Manufacturer", JVal (PyStr "locast2dvr"));
    ("ModelNumber", JVal device_model);
    ("FirmwareName", JVal device_firmware);
    ("TunerCount", JVal tuner_count);
    ("FirmwareVersion", JVal device_version);
    ("DeviceID", JVal (PyStr (uid app)));
    ("DeviceAuth", JVal (PyStr "locast2dvr"));
    ("BaseURL", JVal (PyStr ("http://" +:+ host_and_port app)));
    ("LineupURL", JVal (PyStr ("http://" +:+ host_and_port app +:+ "/lineup.json")))
  ]).

Definition lineup_status_json (app : App) : json :=
  if station_scan app then
    JDict [("ScanInProgress", JVal (PyBool true));
           ("Progress", JVal (PyInt 50));
           ("Found", JVal (PyInt 5))]
  else
    JDict [("ScanInProgress", JVal (PyBool false));
           ("ScanPossible", JVal (PyBool true));
           ("Source", JVal (PyStr "Antenna"));
           ("SourceList", JList [JVal (PyStr "Antenna")])].

(** *** [m3u] *)

Definition network_callsigns : list string :=
  ["ABC"; "CBS"; "NBC"; "FOX"; "CW"; "PBS"].

Module m3u.
(** The names the loop body of [m3u] binds for one station. *)
Record locals := {
  callsign : string;
  city : pyval;
  logo : pyval;
  channel : pyval;
  networks : string;
  groups : string;
  url : string;
  tvg_name : string;
}.
End m3u.

(** The assignments of the loop body, in the order of the source. *)
Definition m3u_locals (app : App) (station : Station) : result m3u.locals :=
  callsign_arg ← py_or (dict_get station "callSign_remapped")
                   (py_or (dict_get station "callSign")
                      (Return (dict_get station "name")));
  callsign ← name_only callsign_arg;
  city ← dict_item station "city";
  logo ← py_or (dict_get station "logoUrl")
           (Return (dict_get station "logo226Url"));
  channel ← py_or (dict_get station "channel_remapped")
              (dict_item station "channel");
  let networks :=
    if bool_decide (callsign ∈ network_callsigns) then "Network" else "" in
  groups ← str_join ";" (filter (λ v, truthy v = true) [city; PyStr networks]);
  id ← dict_item station "id";
  let url := "http://" +:+ host_and_port app +:+ "/watch/" +:+ py_str id
             +:+ ".m3u" in
  multiplex ← getattr (config app) "multiplex";
  let tvg_name :=
    if truthy multiplex then callsign +:+ " (" +:+ py_str city +:+ ")"
    else callsign in
  Return {| m3u.callsign := callsign; m3u.city := city; m3u.logo := logo;
            m3u.channel := channel; m3u.networks := networks;
            m3u.groups := groups; m3u.url := url; m3u.tvg_name := tvg_name |}.

(** What one pass of the loop appends to [m3uText]. *)
Definition m3u_station (app : App) (station : Station) : result string :=
  l ← m3u_locals app station;
  id ← dict_item station "id";
  multiplex ← getattr (config app) "multiplex";
  let extinf :=
    "#EXTINF:-1 tvg-id=" +:+ dq +:+ "channel." +:+ py_str id +:+ dq
    +:+ " tvg-name=" +:+ dq +:+ m3u.tvg_name l +:+ dq
    +:+ " tvg-logo=" +:+ dq +:+ py_str (m3u.logo l) +:+ dq
    +:+ " tvg-chno=" +:+ dq +:+ py_str (m3u.channel l) +:+ dq
    +:+ " group-title=" +:+ dq +:+ m3u.groups l +:+ dq
    +:+ ", " +:+ m3u.callsign l in
  let suffix :=
    if truthy multiplex then " (" +:+ py_str (m3u.city l) +:+ ")" else "" in
  Return (extinf +:+ suffix +:+ String "010" (m3u.url l)
          +:+ String "010" (String "010" "")).

Fixpoint m3u_loop (app : App) (m3uText : string) (stations : list Station)
    : result string :=
  match stations with
  | [] => Return m3uText
  | station :: rest =>
      entry ← m3u_station app station;
      m3u_loop app (m3uText +:+ entry) rest
  end.

Definition m3u (app : App) : result string :=
  m3u_loop app ("#EXTM3U" +:+ String "010" "")
    (get_stations (locast_service app)).

(** *** [lineup_json], [epg] *)

Definition lineup_json_station (app : App) (station : Station) : result json :=
  guide_number ← py_or (dict_get station "channel_remapped")
                   (dict_item station "channel");
  guide_name ← dict_item station "name";
  id ← dict_item station "id";
  Return (JDict [
    ("GuideNumber", JVal guide_number);
    ("GuideName", JVal guide_name);
    ("URL", JVal (PyStr ("http://" +:+ host_and_port app +:+ "/watch/"
                         +:+ py_str id)))
  ]).

Fixpoint lineup_json_items (app : App) (stations : list Station)
    : result (list json) :=
  match stations with
  | [] => Return []
  | station :: rest =>
      item ← lineup_json_station app station;
      items ← lineup_json_items app rest;
      Return (item :: items)
  end.

Definition lineup_json (app : App) : result json :=
  items ← lineup_json_items app (get_stations (locast_service app));
  Return (JList items).

Definition epg (app : App) : json :=
  JList (JMap <$> get_stations (locast_service app)).

(** ** The operating system: processes, threads, generators, the log *)

Abbreviation bytes := (list Byte.byte).

(** What launching a command gives: the bytes the child writes to its
    standard output before it exits, the lines it writes to its standard
    error ([None] for a line that is not valid UTF-8), and after how many
    reads of its standard output the pipe raises, if ever (the environment's
    choice). *)
Record Child := {
  child_stdout : bytes;
  child_stderr : list (option string);
  child_fault : option nat;
}.

(** A [subprocess.Popen] object. *)
Record Popen := {
  args : list string;
  stdout : bytes;
  stdout_fault : option nat;
  stderr : list (option string);
  terminated : bool;
  reaped : bool;
}.

Inductive gen_state := GEN_CREATED | GEN_SUSPENDED | GEN_CLOSED.

Inductive thread_state := THREAD_ENTRY | THREAD_LOOP | THREAD_DONE.

Module watch.
(** The frame of one call of [watch].  [stop_thread] is the variable the
    lambda handed to the thread closes over. *)
Record locals := {
  channel_id : string;
  uri : string;
  ffmpeg : pyval;
  ffmpeg_cmd : list pyval;
  ffmpeg_proc : nat;
  stop_thread : bool;
}.
End watch.

Module log_output.
(** A thread running [log_output(stderr, stop)]: [stderr] is the pipe of
    process [stderr], [stop] is [lambda: stop_thread] over the frame
    [stop] of [watch]. *)
Record locals := {
  stderr : nat;
  stop : nat;
  daemon : bool;
  state : thread_state;
}.
End log_output.

Module _stream.
(** A generator made by [_stream()].  [stop_thread] is assigned in the
    body of [_stream] and not declared nonlocal, so it is a local of the
    generator's own frame, unbound until the assignment runs.  The free
    variables [ffmpeg_proc] and [config] are read from the frame [outer]
    of [watch] and from the application. *)
Record locals := {
  outer : nat;
  stop_thread : option bool;
  state : gen_state;
}.
End _stream.

Inductive event :=
  | Logged (logger msg : string)
  | Printed (c : Configuration)
  | Spawned (pid : nat) (cmd : list string)
  | Started (tid : nat)
  | Read (pid : nat) (n : pyval)
  | Terminate (pid : nat)
  | Communicate (pid : nat).

(** [memory] is the largest block the allocator of the machine can serve,
    in bytes (the environment's choice, as [launch] is). *)
Record world := {
  launch : list string → option Child;
  memory : Z;
  procs : list Popen;
  frames : list watch.locals;
  threads : list log_output.locals;
  gens : list _stream.locals;
  trace : list event;
}.

(** Effectful code: a state over [world] in which exceptions propagate and
    the effects that happened before the raise stay. *)
Definition M (A : Type) : Type := world → result A * world.

#[global] Instance M_ret : MRet M := λ A a w, (Return a, w).
#[global] Instance M_bind : MBind M := λ A B f m w,
  match m w with
  | (Return a, w') => f a w'
  | (Raise e, w') => (Raise e, w')
  end.

Definition lift {A} (r : result A) : M A := λ w, (r, w).
Definition raise {A} (e : exn) : M A := λ w, (Raise e, w).
Definition get_world : M world := λ w, (Return w, w).
Definition put_world (w' : world) : M unit := λ _, (Return tt, w').

(** [try: body except: handler], with a bare [except] that catches all. *)
Definition try_except {A} (body : M A) (handler : M A) : M A := λ w,
  match body w with
  | (Return a, w') => (Return a, w')
  | (Raise _, w') => handler w'
  end.

Definition emit (e : event) : M unit := λ w,
  (Return tt,
   {| launch := launch w; memory := memory w; procs := procs w; frames := frames w;
      threads := threads w; gens := gens w; trace := trace w ++ [e] |}).

Definition set_procs (ps : list Popen) : M unit := λ w,
  (Return tt,
   {| launch := launch w; memory := memory w; procs := ps; frames := frames w;
      threads := threads w; gens := gens w; trace := trace w |}).

Definition set_frames (fs : list watch.locals) : M unit := λ w,
  (Return tt,
   {| launch := launch w; memory := memory w; procs := procs w; frames := fs;
      threads := threads w; gens := gens w; trace := trace w |}).

Definition set_threads (ts : list log_output.locals) : M unit := λ w,
  (Return tt,
   {| launch := launch w; memory := memory w; procs := procs w; frames := frames w;
      threads := ts; gens := gens w; trace := trace w |}).

Definition set_gens (gs : list _stream.locals) : M unit := λ w,
  (Return tt,
   {| launch := launch w; memory := memory w; procs := procs w; frames := frames w;
      threads := threads w; gens := gs; trace := trace w |}).

(** Following a reference to an object of the world.  The objects the code
    holds always exist; a dangling reference is a fault of the interpreter. *)
Definition deref {A} (o : option A) : M A :=
  match o with
  | Some a => mret a
  | None => raise SystemError
  end.

(** *** [subprocess] *)

Fixpoint cmd_strings (cmd : list pyval) : result (list string) :=
  match cmd with
  | [] => Return []
  | PyStr s :: rest => r ← cmd_strings rest; Return (s :: r)
  | _ :: _ => Raise TypeError
  end.

(** [subprocess.Popen(cmd, stdout=subprocess.PIPE, stderr=subprocess.PIPE)] *)
Definition subprocess_Popen (cmd : list pyval) : M nat :=
  args ← lift (cmd_strings cmd);
  w ← get_world;
  match launch w args with
  | None => raise OSError
  | Some c =>
      let pid := length (procs w) in
      set_procs (procs w ++ [{| args := args; stdout := child_stdout c;
                                stdout_fault := child_fault c;
                                stderr := child_stderr c;
                                terminated := false; reaped := false |}]);;
      emit (Spawned pid args);;
      mret pid
  end.

(** The size argument of [read] of a buffered reader: [None] and [-1] read
    to the end of the file; a number that does not fit a machine word raises
    OverflowError, a number below [-1] ValueError, what is no number
    TypeError. *)
Definition read_size (n : pyval) : result (option nat) :=
  match n with
  | PyNone => Return None
  | PyInt z =>
      if ((z <? - 2 ^ 63) || (2 ^ 63 <=? z))%Z then Raise OverflowError
      else if (z <? -1)%Z then Raise ValueError
      else if (z =? -1)%Z then Return None
      else Return (Some (Z.to_nat z))
  | PyBool b => Return (Some (if b then 1%nat else 0%nat))
  | PyStr _ => Raise TypeError
  end.

(** The largest [bytes] object there is: the largest size of the machine
    word less the header of the object. *)
Definition max_bytes : Z := 2 ^ 63 - 34.

(** Making the [bytes] object a read of [k] bytes fills: OverflowError when
    it is larger than any [bytes] object can be, MemoryError when the
    machine cannot serve it. *)
Definition allocate (k : nat) : M unit := λ w,
  if (max_bytes <? Z.of_nat k)%Z then (Raise OverflowError, w)
  else if (memory w <? Z.of_nat k)%Z then (Raise MemoryError, w)
  else (Return tt, w).

(** [proc.stdout.read(n)]: at the end of the file it returns no bytes; on a
    closed pipe it raises ValueError.  A read of [n] bytes makes the [bytes]
    object of [n] bytes before it reads from the pipe; a read to the end of
    the file makes it of what it has read. *)
Definition stdout_read (pid : nat) (n : pyval) : M bytes :=
  emit (Read pid n);;
  size ← lift (read_size n);
  w ← get_world;
  p ← deref (procs w !! pid);
  if reaped p then raise ValueError else
  match size with Some k => allocate k | None => mret tt end;;
  match stdout_fault p with
  | Some O => raise OSError
  | fault =>
      match size with
      | Some _ => mret tt
      | None => allocate (length (stdout p))
      end;;
      let chunk := match size with
                   | Some k => take k (stdout p)
                   | None => stdout p
                   end in
      let rest := match size with
                  | Some k => drop k (stdout p)
                  | None => []
                  end in
      set_procs (<[pid := {| args := args p; stdout := rest;
                             stdout_fault := Nat.pred <$> fault;
                             stderr := stderr p;
                             terminated := terminated p;
                             reaped := reaped p |}]> (procs w));;
      mret chunk
  end.

(** [proc.stderr.readline().decode('utf-8')] *)
Definition stderr_readline_decode (pid : nat) : M string :=
  w ← get_world;
  p ← deref (procs w !! pid);
  if reaped p then raise ValueError else
  match stderr p with
  | [] => mret ""
  | line :: rest =>
      set_procs (<[pid := {| args := args p; stdout := stdout p;
                             stdout_fault := stdout_fault p;
                             stderr := rest;
                             terminated := terminated p;
                             reaped := reaped p |}]> (procs w));;
      match line with
      | Some s => mret s
      | None => raise UnicodeDecodeError
      end
  end.

(** [proc.terminate()]: SIGTERM, unless the process was reaped already. *)
Definition terminate (pid : nat) : M unit :=
  emit (Terminate pid);;
  w ← get_world;
  p ← deref (procs w !! pid);
  if reaped p then mret tt else
  set_procs (<[pid := {| args := args p; stdout := stdout p;
                         stdout_fault := stdout_fault p; stderr := stderr p;
                         terminated := true; reaped := reaped p |}]> (procs w)).

(** [proc.communicate()]: drains and closes both pipes and waits for the
    process. *)
Definition communicate (pid : nat) : M unit :=
  emit (Communicate pid);;
  w ← get_world;
  p ← deref (procs w !! pid);
  set_procs (<[pid := {| args := args p; stdout := []; stdout_fault := None;
                         stderr := []; terminated := terminated p;
                         reaped := true |}]> (procs w)).

(** [logging.getLogger(logger).info(msg)] *)
Definition log_info (logger msg : string) : M unit := emit (Logged logger msg).

(** ** Responses and requests *)

Inductive Body :=
  | Text (s : string)
  | Jsonified (j : json)
  | Rendered (template : string)
  | RedirectPage
  | Streamed (g : nat).

Record Response := {
  body : Body;
  status : Z;
  content_type : string;
  location : option string;
}.

(** A view that returns a string, or a (string, status) tuple. *)
Definition of_str (s : string) : Response :=
  {| body := Text s; status := 200;
     content_type := "text/html; charset=utf-8"; location := None |}.

Definition of_tuple (rv : string * Z) : Response :=
  {| body := Text rv.1; status := rv.2;
     content_type := "text/html; charset=utf-8"; location := None |}.

Definition jsonify (j : json) : Response :=
  {| body := Jsonified j; status := 200;
     content_type := "application/json"; location := None |}.

Definition render_template (template mimetype : string) : Response :=
  {| body := Rendered template; status := 200;
     content_type := mimetype +:+ "; charset=utf-8"; location := None |}.

Definition redirect (target : string) (code : Z) : Response :=
  {| body := RedirectPage; status := code;
     content_type := "text/html; charset=utf-8"; location := Some target |}.

(** [request.args]: the query string as a multi-dict; [get] gives the first
    value of the key, or None. *)
Fixpoint args_get (args : list (string * string)) (key : string) : pyval :=
  match args with
  | [] => PyNone
  | (k, v) :: rest => if String.eqb k key then PyStr v else args_get rest key
  end.

(** ** [/config] *)

Definition password_mask : string := "*********".

(** [c = dict(config)] copies; the assignment changes the copy. *)
Definition output_config (app : App) : M Response :=
  let c := <["password" := PyStr password_mask]> (config app) in
  emit (Printed (config app));;
  mret (jsonify (JMap c)).

(** ** [/lineup.post] *)

Module lineup_post.
(** [station_scan] is assigned in the body of [lineup_post] and not
    declared nonlocal: the name is a local of [lineup_post], distinct
    from the parameter [station_scan] of [HTTPInterface]. *)
Record locals := {
  scan : pyval;
  station_scan : option bool;
  stations : option (list Station);
}.
End lineup_post.

(** The handler gives back the frame of [HTTPInterface] it ran in, its own
    frame when it returned, and the returned tuple. *)
Definition lineup_post (app : App) (args : list (string * string))
    : App * lineup_post.locals * (string * Z) :=
  let scan := args_get args "scan" in
  if py_eq scan (PyStr "start") then
    let station_scan := Some true in
    let stations := Some (get_stations (locast_service app)) in
    let station_scan := Some false in
    (app,
     {| lineup_post.scan := scan; lineup_post.station_scan := station_scan;
        lineup_post.stations := stations |},
     ("", 204))
  else
    (app,
     {| lineup_post.scan := scan; lineup_post.station_scan := None;
        lineup_post.stations := None |},
     (py_str scan +:+ " is not a valid scan command", 400)).

(** ** [/watch/<channel_id>.m3u] *)

Definition watch_m3u (app : App) (channel_id : string) : M Response :=
  log_info "HTTPInterface"
    ("Watching channel " +:+ channel_id +:+ " on " +:+ host_and_port app
     +:+ " for " +:+ city (locast_service app) +:+ " using m3u");;
  uri ← lift (get_station_stream_uri (locast_service app) channel_id);
  mret (redirect uri 302).

(** ** [/watch/<channel_id>] *)

Definition video_mpeg : string :=
  "video/mpeg; codecs=" +:+ dq +:+ "avc1.4D401E".

Definition watch (app : App) (channel_id : string) : M Response :=
  log_info "HTTPInterface"
    ("Watching channel " +:+ channel_id +:+ " on " +:+ host_and_port app
     +:+ " for " +:+ city (locast_service app) +:+ " using ffmpeg");;
  uri ← lift (get_station_stream_uri (locast_service app) channel_id);
  ffmpeg ← lift (c ← getattr (config app) "ffmpeg";
                 py_or c (Return (PyStr "ffmpeg")));
  let ffmpeg_cmd := [ffmpeg; PyStr "-i"; PyStr uri; PyStr "-codec";
                     PyStr "copy"; PyStr "-f"; PyStr "mpegts";
                     PyStr "pipe:1"] in
  ffmpeg_proc ← subprocess_Popen ffmpeg_cmd;
  (* stop_thread = False; the frame now holds every name the closures read *)
  w ← get_world;
  let frame := length (frames w) in
  set_frames (frames w ++ [{| watch.channel_id := channel_id;
                              watch.uri := uri; watch.ffmpeg := ffmpeg;
                              watch.ffmpeg_cmd := ffmpeg_cmd;
                              watch.ffmpeg_proc := ffmpeg_proc;
                              watch.stop_thread := false |}]);;
  (* t = threading.Thread(target=log_output,
                          args=(ffmpeg_proc.stderr, lambda: stop_thread))
     t.setDaemon(True); t.start() *)
  w ← get_world;
  let t := length (threads w) in
  set_threads (threads w ++ [{| log_output.stderr := ffmpeg_proc;
                                log_output.stop := frame;
                                log_output.daemon := true;
                                log_output.state := THREAD_ENTRY |}]);;
  emit (Started t);;
  (* Response(_stream(), ...): calling _stream makes the generator, none of
     its body runs yet *)
  w ← get_world;
  let g := length (gens w) in
  set_gens (gens w ++ [{| _stream.outer := frame;
                          _stream.stop_thread := None;
                          _stream.state := GEN_CREATED |}]);;
  mret {| body := Streamed g; status := 200; content_type := video_mpeg;
          location := None |}.

(** *** The generator [_stream] *)

Definition set_gen (g : nat) (gen : _stream.locals) : M unit :=
  w ← get_world;
  set_gens (<[g := gen]> (gens w)).

(** The [except:] branch: terminate, communicate, [stop_thread = True] in
    the generator's own frame, and [break], after which the generator
    returns. *)
Definition _stream_except (g : nat) (gen : _stream.locals) (ffmpeg_proc : nat)
    : M (option bytes) :=
  terminate ffmpeg_proc;;
  communicate ffmpeg_proc;;
  set_gen g {| _stream.outer := _stream.outer gen;
               _stream.stop_thread := Some true;
               _stream.state := GEN_CLOSED |};;
  mret None.

(** The [try:] branch, entered from the top of the loop ([thrown = None]) or
    at the [yield] with an exception thrown into the generator.  It ends
    with the generator suspended at the [yield] and a chunk handed out. *)
Definition _stream_try (app : App) (g : nat) (gen : _stream.locals)
    (ffmpeg_proc : nat) (thrown : option exn) : M (option bytes) :=
  match thrown with
  | Some e => raise e
  | None =>
      bytes_per_read ← lift (getattr (config app) "bytes_per_read");
      chunk ← stdout_read ffmpeg_proc bytes_per_read;
      set_gen g {| _stream.outer := _stream.outer gen;
                   _stream.stop_thread := _stream.stop_thread gen;
                   _stream.state := GEN_SUSPENDED |};;
      mret (Some chunk)
  end.

(** Running the generator until it yields ([Some chunk]) or returns
    ([None], StopIteration to the caller). *)
Definition _stream_resume (app : App) (g : nat) (thrown : option exn)
    : M (option bytes) :=
  w ← get_world;
  gen ← deref (gens w !! g);
  frame ← deref (frames w !! _stream.outer gen);
  let ffmpeg_proc := watch.ffmpeg_proc frame in
  try_except (_stream_try app g gen ffmpeg_proc thrown)
             (_stream_except g gen ffmpeg_proc).

(** [next(gen)] *)
Definition _stream_next (app : App) (g : nat) : M (option bytes) :=
  w ← get_world;
  gen ← deref (gens w !! g);
  match _stream.state gen with
  | GEN_CLOSED => mret None
  | GEN_CREATED | GEN_SUSPENDED => _stream_resume app g None
  end.

(** [gen.close()]: GeneratorExit is raised at the [yield] of a suspended
    generator; a generator that never started is just marked closed. *)
Definition _stream_close (app : App) (g : nat) : M unit :=
  w ← get_world;
  gen ← deref (gens w !! g);
  match _stream.state gen with
  | GEN_CLOSED => mret tt
  | GEN_CREATED =>
      set_gen g {| _stream.outer := _stream.outer gen;
                   _stream.stop_thread := _stream.stop_thread gen;
                   _stream.state := GEN_CLOSED |}
  | GEN_SUSPENDED => _stream_resume app g (Some GeneratorExit);; mret tt
  end.

(** *** The thread [log_output] *)

(** [v > 0] *)
Definition py_gt_zero (v : pyval) : result bool :=
  match v with
  | PyInt z => Return (0 <? z)%Z
  | PyBool b => Return b
  | PyNone | PyStr _ => Raise TypeError
  end.

Definition set_thread_state (t : nat) (th : log_output.locals)
    (s : thread_state) : M unit :=
  w ← get_world;
  set_threads (<[t := {| log_output.stderr := log_output.stderr th;
                         log_output.stop := log_output.stop th;
                         log_output.daemon := log_output.daemon th;
                         log_output.state := s |}]> (threads w)).

(** [stop()], that is [lambda: stop_thread] in the frame of [watch]. *)
Definition stop_call (frame : nat) : M bool :=
  w ← get_world;
  fr ← deref (frames w !! frame);
  mret (watch.stop_thread fr).

(** The body of the [while] loop. *)
Definition log_output_body (th : log_output.locals) : M unit :=
  try_except
    (decoded ← stderr_readline_decode (log_output.stderr th);
     let line := rstrip decoded in
     if String.eqb line "" then mret tt else log_info "ffmpeg" line)
    (mret tt).

(** One scheduling step of thread [t]: the test of [config.verbose] on
    entry, then one test of [stop()] and one pass of the loop body at a
    time.  A thread that returns, or dies of an exception, is done. *)
Definition log_output_step (app : App) (t : nat) : M unit :=
  w ← get_world;
  th ← deref (threads w !! t);
  match log_output.state th with
  | THREAD_ENTRY =>
      match v ← getattr (config app) "verbose"; py_gt_zero v with
      | Return true => set_thread_state t th THREAD_LOOP
      | _ => set_thread_state t th THREAD_DONE
      end
  | THREAD_LOOP =>
      stopped ← stop_call (log_output.stop th);
      if (stopped : bool) then set_thread_state t th THREAD_DONE
      else log_output_body th
  | THREAD_DONE => mret tt
  end.

(** ** Routing *)

Inductive Method := GET | POST.

Inductive Route :=
  | device_xml_route
  | discover_json_route
  | lineup_status_json_route
  | m3u_route
  | lineup_json_route
  | epg_route
  | output_config_route
  | epg_xml_route
  | lineup_xml_route
  | lineup_post_route
  | watch_m3u_route (channel_id : string)
  | watch_route (channel_id : string).

Record Request := {
  method : Method;
  route : Route;
  request_args : list (string * string);
}.

Definition method_not_allowed : Response :=
  {| body := Text "Method Not Allowed"; status := 405;
     content_type := "text/html; charset=utf-8"; location := None |}.

Definition internal_server_error : Response :=
  {| body := Text "Internal Server Error"; status := 500;
     content_type := "text/html; charset=utf-8"; location := None |}.

(** The view function of a route.  It gives back the frame of
    [HTTPInterface] along with the response (see [lineup_post]). *)
Definition view (app : App) (request : Request) : M (App * Response) :=
  match route request with
  | device_xml_route => mret (app, render_template "device.xml" "text/xml")
  | discover_json_route => j ← lift (discover_json app); mret (app, jsonify j)
  | lineup_status_json_route => mret (app, jsonify (lineup_status_json app))
  | m3u_route => text ← lift (m3u app); mret (app, of_str text)
  | lineup_json_route => j ← lift (lineup_json app); mret (app, jsonify j)
  | epg_route => mret (app, jsonify (epg app))
  | output_config_route => r ← output_config app; mret (app, r)
  | epg_xml_route => mret (app, render_template "epg.xml" "text/xml")
  | lineup_xml_route => mret (app, render_template "lineup.xml" "text/xml")
  | lineup_post_route =>
      let '(app', _, rv) := lineup_post app (request_args request) in
      mret (app', of_tuple rv)
  | watch_m3u_route channel_id => r ← watch_m3u app channel_id; mret (app, r)
  | watch_route channel_id => r ← watch app channel_id; mret (app, r)
  end.

(** Only [/lineup.post] is registered for POST. *)
Definition allowed (request : Request) : bool :=
  match method request, route request with
  | GET, _ => true
  | POST, lineup_post_route => true
  | POST, _ => false
  end.

(** Flask's dispatch: an exception that leaves the view is answered with
    500 Internal Server Error. *)
Definition full_dispatch_request (app : App) (request : Request) (w : world)
    : App * Response * world :=
  if allowed request then
    match view app request w with
    | (Return (app', response), w') => (app', response, w')
    | (Raise _, w') => (app, internal_server_error, w')
    end
  else (app, method_not_allowed, w).

(** ** The running server *)

Record server := {
  the_app : App;
  the_world : world;
}.

(** What can happen next: a request is served; the server pulls the next
    chunk of a streamed response; the client of a streamed response goes
    away and the server closes the generator; a logging thread is scheduled
    for one step. *)
Inductive action :=
  | Serve (request : Request)
  | Pull (g : nat)
  | Hangup (g : nat)
  | Schedule (t : nat).

Definition step (s : server) (a : action) : server :=
  match a with
  | Serve request =>
      let '(app', _, w') :=
        full_dispatch_request (the_app s) request (the_world s) in
      {| the_app := app'; the_world := w' |}
  | Pull g =>
      {| the_app := the_app s;
         the_world := (_stream_next (the_app s) g (the_world s)).2 |}
  | Hangup g =>
      {| the_app := the_app s;
         the_world := (_stream_close (the_app s) g (the_world s)).2 |}
  | Schedule t =>
      {| the_app := the_app s;
         the_world := (log_output_step (the_app s) t (the_world s)).2 |}
  end.

Definition run (s : server) (l : list action) : server := foldl step s l.

(** The response the server gives to a request in state [s]. *)
Definition respond (s : server) (request : Request) : Response :=
  (full_dispatch_request (the_app s) request (the_world s)).1.2.

(** Processes that were started and not yet reaped. *)
Definition live (w : world) : list Popen :=
  filter (λ p, reaped p = false) (procs w).

(** ** The template filters [aspect] and [quality] *)

(** [value.startswith(r)] *)
Fixpoint starts_with (r value : string) : bool :=
  match r, value with
  | EmptyString, _ => true
  | String a r', String b value' => Ascii.eqb a b && starts_with r' value'
  | String _ _, EmptyString => false
  end.

(** [r in value] on strings: [r] occurs somewhere in [value]. *)
Fixpoint str_in (r value : string) : bool :=
  starts_with r value
  || match value with
     | String _ rest => str_in r rest
     | EmptyString => false
     end.

(** [r in value] raises TypeError when [value] is None, a number or a
    boolean (none of them is iterable). *)
Definition py_in (r : string) (value : pyval) : result bool :=
  match value with
  | PyStr s => Return (str_in r s)
  | PyNone | PyBool _ | PyInt _ => Raise TypeError
  end.

(** The [for r in [...]] loop of [aspect]. *)
Fixpoint aspect_loop (rs : list string) (value : pyval) : result string :=
  match rs with
  | [] => Return "4:3"
  | r :: rest =>
      found ← py_in r value;
      if (found : bool) then Return "16:9" else aspect_loop rest value
  end.

Definition aspect (value : pyval) : result string :=
  aspect_loop ["1080"; "720"; "HDTV"] value.

Definition quality (value : pyval) : result string :=
  found ← py_in "HDTV" value;
  Return (if (found : bool) then "HDTV" else "SD").

(** ** A small installation, for the examples *)

Module Example.

Definition cbs : Station :=
  {[ "id" := PyInt 104; "name" := PyStr "WCBS"; "callSign" := PyStr "2.1 CBS";
     "city" := PyStr "New York"; "channel" := PyStr "2.1";
     "logoUrl" := PyStr "http://logo/cbs.png" ]}.

(** The same station after a remap to channel 102.1. *)
Definition cbs_remapped : Station :=
  <["callSign_remapped" := PyStr "102.1 CBS"]>
    (<["channel_remapped" := PyStr "102.1"]> cbs).

(** A station whose remapped fields are there and empty. *)
Definition cbs_empty_remap : Station :=
  <["callSign_remapped" := PyStr ""]>
    (<["channel_remapped" := PyStr ""]> cbs).

Definition service : LocastService :=
  {| city := "New York";
     get_stations := [cbs_remapped];
     get_station_stream_uri := λ channel_id,
       if String.eqb channel_id "104" then Return "https://cdn/104.m3u8"
       else Raise (UpstreamError "unknown channel") |}.

Definition configuration : Configuration :=
  {[ "bind_address" := PyStr "127.0.0.1"; "device_model" := PyStr "HDHR3-US";
     "device_firmware" := PyStr "hdhomerun3_atsc";
     "device_version" := PyStr "1.2.3456"; "tuner_count" := PyInt 1;
     "multiplex" := PyBool false; "ffmpeg" := PyNone;
     "bytes_per_read" := PyInt 4; "verbose" := PyInt 1;
     "username" := PyStr "me"; "password" := PyStr "hunter2" ]}.

Definition app : App :=
  {| config := configuration; port := 6077; uid := "LOCAST2DVR";
     locast_service := service; station_scan := false;
     host_and_port := "127.0.0.1:6077" |}.

(** Every command launches; the child writes six bytes and two lines and
    its pipe never fails. *)
Definition boot : world :=
  {| launch := λ _, Some {| child_stdout := [Byte.x00; Byte.x01; Byte.x02;
                                             Byte.x03; Byte.x04; Byte.x05];
                            child_stderr := [Some "frame=1"; Some "frame=2"];
                            child_fault := None |};
     memory := 2 ^ 30;
     procs := []; frames := []; threads := []; gens := []; trace := [] |}.

Definition server0 : server := {| the_app := app; the_world := boot |}.

(** The same, but the pipe of every child fails at the second read. *)
Definition flaky : world :=
  {| launch := λ _, Some {| child_stdout := [Byte.x00; Byte.x01; Byte.x02;
                                             Byte.x03; Byte.x04; Byte.x05];
                            child_stderr := [Some "frame=1"];
                            child_fault := Some 1%nat |};
     memory := 2 ^ 30;
     procs := []; frames := []; threads := []; gens := []; trace := [] |}.

Definition get (r : Route) : Request :=
  {| method := GET; route := r; request_args := [] |}.

(** One client watches channel 104 and has pulled [k] chunks. *)
Definition watching (w : world) (k : nat) : world :=
  the_world (run {| the_app := app; the_world := w |}
               (Serve (get (watch_route "104")) :: replicate k (Pull 0))).

End Example.

(** * Properties *)

(** ** The rescan trigger *)

Lemma args_get_missing (args : list (string * string)) (key : string) :
  key ∉ args.*1 → args_get args key = PyNone.
Proof.
  induction args as [|[k v] rest IH]; simpl; [done|].
  intros Hnot. apply not_elem_of_cons in Hnot as [Hne Hrest].
  destruct (String.eqb_spec k key) as [->|_]; [done|]. by apply IH.
Qed.

Lemma py_eq_str (a b : string) :
  py_eq (PyStr a) (PyStr b) = bool_decide (a = b).
Proof.
  unfold py_eq. apply bool_decide_ext. split; [by intros [= ->]|by intros ->].
Qed.

Lemma respond_lineup_post (app : App) (m : Method)
    (args : list (string * string)) (w : world) :
  respond {| the_app := app; the_world := w |}
          {| method := m; route := lineup_post_route; request_args := args |}
  = of_tuple (lineup_post app args).2.
Proof.
  unfold respond, full_dispatch_request, view, lineup_post; simpl.
  destruct m; simpl; by destruct (py_eq _ _).
Qed.

(** C7: [lineup_post] answers 204 with an empty body when the [scan]
    parameter is the literal "start", and for every other value [v] it
    answers 400 with the body "v is not a valid scan command"; this is the
    tuple the view returns and the response the server gives, for GET and
    for POST. *)
Theorem lineup_post_start_or_invalid (app : App) (m : Method)
    (args : list (string * string)) (w : world) (v : string) :
  args_get args "scan" = PyStr v →
  let response :=
    respond {| the_app := app; the_world := w |}
            {| method := m; route := lineup_post_route;
               request_args := args |} in
  (v = "start" →
     (lineup_post app args).2 = ("", 204)
     ∧ body response = Text "" ∧ status response = 204)
  ∧ (v ≠ "start" →
     (lineup_post app args).2 = (v +:+ " is not a valid scan command", 400)
     ∧ body response = Text (v +:+ " is not a valid scan command")
     ∧ status response = 400).
Proof.
  intros Hscan response. subst response. rewrite respond_lineup_post.
  unfold lineup_post. rewrite Hscan, py_eq_str.
  split; intros Hv.
  - subst v. by rewrite bool_decide_true.
  - by rewrite bool_decide_false.
Qed.

Lemma lineup_post_start_or_invalid_witness :
  ((lineup_post Example.app [("scan", "start")]).2 = ("", 204)
   ∧ (lineup_post Example.app [("x", "1"); ("scan", "bogus")]).2
     = ("bogus is not a valid scan command", 400)).
Proof.
  split.
  - apply (lineup_post_start_or_invalid Example.app POST [("scan", "start")]
             Example.boot "start"); reflexivity.
  - apply (lineup_post_start_or_invalid Example.app GET
             [("x", "1"); ("scan", "bogus")] Example.boot "bogus");
      [reflexivity | discriminate].
Defined.

(** C10: when the request has no [scan] parameter at all, [request.args.get]
    gives None, and the handler answers 400 with the body
    "None is not a valid scan command". *)
Theorem lineup_post_without_scan (app : App) (m : Method)
    (args : list (string * string)) (w : world) :
  "scan" ∉ args.*1 →
  let response :=
    respond {| the_app := app; the_world := w |}
            {| method := m; route := lineup_post_route;
               request_args := args |} in
  lineup_post.scan (lineup_post app args).1.2 = PyNone
  ∧ (lineup_post app args).2 = ("None is not a valid scan command", 400)
  ∧ body response = Text "None is not a valid scan command"
  ∧ status response = 400.
Proof.
  intros Hmissing response. subst response. rewrite respond_lineup_post.
  unfold lineup_post. by rewrite (args_get_missing _ _ Hmissing).
Qed.

Lemma lineup_post_without_scan_witness :
  (lineup_post Example.app [("channel", "start")]).2
  = ("None is not a valid scan command", 400).
Proof.
  apply (lineup_post_without_scan Example.app GET [("channel", "start")]
           Example.boot).
  apply not_elem_of_cons; split; [discriminate | apply not_elem_of_nil].
Defined.

(** ** The scan status *)

Definition scanning_shape : json :=
  JDict [("ScanInProgress", JVal (PyBool true));
         ("Progress", JVal (PyInt 50));
         ("Found", JVal (PyInt 5))].

Definition idle_shape : json :=
  JDict [("ScanInProgress", JVal (PyBool false));
         ("ScanPossible", JVal (PyBool true));
         ("Source", JVal (PyStr "Antenna"));
         ("SourceList", JList [JVal (PyStr "Antenna")])].

(** No view rebinds a name of the frame of [HTTPInterface]. *)
Lemma view_frame (app app' : App) (request : Request) (w w' : world)
    (response : Response) :
  view app request w = (Return (app', response), w') → app' = app.
Proof.
  unfold view, lineup_post.
  destruct (route request); simpl;
    unfold mbind, M_bind, mret, M_ret, lift; simpl;
    intros; repeat case_match; congruence.
Qed.

Lemma step_the_app (s : server) (a : action) : the_app (step s a) = the_app s.
Proof.
  destruct a as [request| | |]; simpl; try done.
  unfold full_dispatch_request. destruct (allowed request); [|done].
  destruct (view _ _ _) as [[[app' response]|e] w'] eqn:Hview; [|done].
  simpl. by apply view_frame in Hview.
Qed.

Lemma run_the_app (s : server) (l : list action) :
  the_app (run s l) = the_app s.
Proof.
  revert s. induction l as [|a l IH]; intros s; [done|].
  simpl. change (foldl step (step s a) l) with (run (step s a) l).
  by rewrite IH, step_the_app.
Qed.

Lemma HTTPInterface_station_scan (config : Configuration) (port : Z)
    (uid : string) (service : LocastService) (scan : bool) (app : App) :
  HTTPInterface config port uid service scan = Return app →
  station_scan app = scan.
Proof.
  unfold HTTPInterface. destruct (getattr config "bind_address"); simpl;
    [|done]. by intros [= <-].
Qed.

(** C5: whatever happens to the server after the application is created
    (any sequence of requests, [/lineup.post?scan=start] by GET or POST
    among them, of pulls and hang-ups of streams and of thread steps), the
    [station_scan] that [lineup_status_json] reads is the value given to
    [HTTPInterface], and [/lineup_status.json] answers with the shape that
    value selects. *)
Theorem lineup_status_fixed_by_creation (config : Configuration) (port : Z)
    (uid : string) (service : LocastService) (scan : bool) (app : App)
    (w : world) (l : list action) (args : list (string * string)) :
  HTTPInterface config port uid service scan = Return app →
  let s := run {| the_app := app; the_world := w |} l in
  station_scan (the_app s) = scan
  ∧ body (respond s {| method := GET; route := lineup_status_json_route;
                       request_args := args |})
    = Jsonified (if scan then scanning_shape else idle_shape).
Proof.
  intros Hcreate s. subst s.
  apply HTTPInterface_station_scan in Hcreate.
  unfold respond, full_dispatch_request. simpl.
  rewrite run_the_app. simpl. split; [done|].
  unfold lineup_status_json. rewrite Hcreate. by destruct scan.
Qed.

Definition scan_start (m : Method) : action :=
  Serve {| method := m; route := lineup_post_route;
           request_args := [("scan", "start")] |}.

Lemma lineup_status_fixed_by_creation_witness :
  body (respond (run Example.server0 [scan_start GET; scan_start POST])
          (Example.get lineup_status_json_route))
  = Jsonified idle_shape.
Proof.
  apply (lineup_status_fixed_by_creation Example.configuration 6077
           "LOCAST2DVR" Example.service false Example.app Example.boot
           [scan_start GET; scan_start POST] []).
  reflexivity.
Defined.

(** ** The configuration document *)

(** The application built over another configuration. *)
Definition with_config (app : App) (c : Configuration) : App :=
  {| config := c; port := port app; uid := uid app;
     locast_service := locast_service app; station_scan := station_scan app;
     host_and_port := host_and_port app |}.

Definition config_request : Request :=
  {| method := GET; route := output_config_route; request_args := [] |}.

Lemma respond_output_config (app : App) (w : world) :
  respond {| the_app := app; the_world := w |} config_request
  = jsonify (JMap (<["password" := PyStr password_mask]> (config app))).
Proof. reflexivity. Qed.

(** C9: the document [/config] answers with holds the fixed mask under
    "password" and the configured value under every other key, so two
    configurations that differ in the password only get the same response:
    the response does not depend on the configured password. *)
Theorem output_config_hides_password (app : App) (c1 c2 : Configuration)
    (w : world) :
  delete "password" c1 = delete "password" c2 →
  let r1 := respond {| the_app := with_config app c1; the_world := w |}
              config_request in
  let r2 := respond {| the_app := with_config app c2; the_world := w |}
              config_request in
  r1 = r2
  ∧ ∃ c : gmap string pyval,
      body r1 = Jsonified (JMap c)
      ∧ c !! "password" = Some (PyStr password_mask)
      ∧ ∀ k, k ≠ "password" → c !! k = c1 !! k.
Proof.
  intros Hsame r1 r2. subst r1 r2. rewrite !respond_output_config. simpl.
  split.
  - do 2 f_equal.
    rewrite <-(insert_delete_eq c1), <-(insert_delete_eq c2).
    by rewrite Hsame.
  - eexists. split; [reflexivity|]. split.
    + apply lookup_insert_eq.
    + intros k Hk. by apply lookup_insert_ne.
Qed.

Lemma output_config_hides_password_witness :
  respond {| the_app := with_config Example.app Example.configuration;
             the_world := Example.boot |} config_request
  = respond {| the_app := with_config Example.app
                 (<["password" := PyStr "correct horse"]>
                    Example.configuration);
               the_world := Example.boot |} config_request.
Proof.
  apply (output_config_hides_password Example.app Example.configuration
           (<["password" := PyStr "correct horse"]> Example.configuration)
           Example.boot).
  vm_compute. reflexivity.
Defined.

(** ** Resolving the channel *)

(** The state of the operating system apart from the log. *)
Definition same_objects (w w' : world) : Prop :=
  procs w' = procs w ∧ frames w' = frames w ∧ threads w' = threads w
  ∧ gens w' = gens w.

Definition is_spawn (e : event) : bool :=
  match e with Spawned _ _ => true | _ => false end.

Definition spawns (t : list event) : list event := List.filter is_spawn t.

Lemma watch_unresolved (app : App) (channel_id : string) (w : world) (e : exn) :
  get_station_stream_uri (locast_service app) channel_id = Raise e →
  ∃ msg, watch app channel_id w
         = (Raise e,
            {| launch := launch w; memory := memory w; procs := procs w; frames := frames w;
               threads := threads w; gens := gens w;
               trace := trace w ++ [Logged "HTTPInterface" msg] |}).
Proof.
  intros Huri. eexists. unfold watch, log_info, emit, lift.
  unfold mbind, M_bind. simpl. rewrite Huri. reflexivity.
Qed.

Lemma watch_m3u_unresolved (app : App) (channel_id : string) (w : world)
    (e : exn) :
  get_station_stream_uri (locast_service app) channel_id = Raise e →
  ∃ msg, watch_m3u app channel_id w
         = (Raise e,
            {| launch := launch w; memory := memory w; procs := procs w; frames := frames w;
               threads := threads w; gens := gens w;
               trace := trace w ++ [Logged "HTTPInterface" msg] |}).
Proof.
  intros Huri. eexists. unfold watch_m3u, log_info, emit, lift.
  unfold mbind, M_bind. simpl. rewrite Huri. reflexivity.
Qed.

Lemma spawns_app_logged (t : list event) (logger msg : string) :
  spawns (t ++ [Logged logger msg]) = spawns t.
Proof. unfold spawns. rewrite List.filter_app. simpl. apply app_nil_r. Qed.

(** What "ends with an error and starts nothing" means for a handler [h]
    run in world [w] and for the server that routes the request to it. *)
Definition fails_clean (h : M Response) (request : Request) (app : App)
    (w : world) (e : exn) : Prop :=
  let s := {| the_app := app; the_world := w |} in
  (h w).1 = Raise e
  ∧ same_objects w (h w).2
  ∧ spawns (trace (h w).2) = spawns (trace w)
  ∧ status (respond s request) = 500
  ∧ same_objects w (the_world (step s (Serve request)))
  ∧ spawns (trace (the_world (step s (Serve request)))) = spawns (trace w).

(** C6: when [get_station_stream_uri] raises for a channel id, [watch] and
    [watch_m3u] end with that exception, which the server answers with a
    500; no process, thread or generator is created and the log of the
    operating system records no spawn. *)
Theorem unresolved_channel_starts_nothing (app : App) (channel_id : string)
    (w : world) (e : exn) :
  get_station_stream_uri (locast_service app) channel_id = Raise e →
  fails_clean (watch app channel_id)
    {| method := GET; route := watch_route channel_id; request_args := [] |}
    app w e
  ∧ fails_clean (watch_m3u app channel_id)
      {| method := GET; route := watch_m3u_route channel_id;
         request_args := [] |}
      app w e.
Proof.
  intros Huri. unfold fails_clean.
  unfold respond, step, full_dispatch_request, view. simpl.
  unfold mbind, M_bind.
  destruct (watch_unresolved app channel_id w e Huri) as [msg ->].
  destruct (watch_m3u_unresolved app channel_id w e Huri) as [msg' ->].
  simpl. rewrite !spawns_app_logged. by repeat split.
Qed.

Lemma unresolved_channel_starts_nothing_witness :
  (watch Example.app "7" Example.boot).1
  = Raise (UpstreamError "unknown channel")
  ∧ procs (watch Example.app "7" Example.boot).2 = []
  ∧ (watch_m3u Example.app "7" Example.boot).1
    = Raise (UpstreamError "unknown channel")
  ∧ procs (watch_m3u Example.app "7" Example.boot).2 = [].
Proof.
  destruct (unresolved_channel_starts_nothing Example.app "7" Example.boot
              (UpstreamError "unknown channel") eq_refl)
    as [(Hw1 & (Hw2 & _) & _) (Hm1 & (Hm2 & _) & _)].
  repeat split; assumption.
Defined.

(** ** Remapped callsigns and channels *)

(** The GuideNumber of an entry of [/lineup.json]. *)
Definition guide_number (entry : json) : option json :=
  match entry with
  | JDict (("GuideNumber", v) :: _) => Some v
  | _ => None
  end.

(** Two snapshots that agree on every key but [key]. *)
Definition agree_but (key : string) (a b : Station) : Prop :=
  ∀ k, k ≠ key → a !! k = b !! k.

Lemma dict_get_agree (key k : string) (a b : Station) :
  agree_but key a b → k ≠ key → dict_get a k = dict_get b k.
Proof. intros Hab Hk. unfold dict_get. by rewrite (Hab k Hk). Qed.

Lemma dict_item_agree (key k : string) (a b : Station) :
  agree_but key a b → k ≠ key → dict_item a k = dict_item b k.
Proof. intros Hab Hk. unfold dict_item. by rewrite (Hab k Hk). Qed.

Lemma dict_get_lookup (station : Station) (k : string) (v : pyval) :
  station !! k = Some v → dict_get station k = v.
Proof. intros H. unfold dict_get. by rewrite H. Qed.

Lemma py_or_truthy (a : pyval) (b : result pyval) :
  truthy a = true → py_or a b = Return a.
Proof. intros H. unfold py_or. by rewrite H. Qed.

(** What [m3u] binds to [callsign] when the remapped callsign is truthy. *)
Lemma m3u_locals_callsign (app : App) (station : Station) (cs : pyval)
    (l : m3u.locals) :
  station !! "callSign_remapped" = Some cs → truthy cs = true →
  m3u_locals app station = Return l → name_only cs = Return (m3u.callsign l).
Proof.
  intros Hcs Htrue. unfold m3u_locals.
  rewrite (dict_get_lookup _ _ _ Hcs), (py_or_truthy _ _ Htrue). simpl.
  destruct (name_only cs) as [callsign|]; simpl; [|done].
  unfold mbind, result_bind.
  intros Hl. repeat case_match; try done; by simplify_eq.
Qed.

(** What [m3u] binds to [channel] when the remapped channel is truthy. *)
Lemma m3u_locals_channel (app : App) (station : Station) (ch : pyval)
    (l : m3u.locals) :
  station !! "channel_remapped" = Some ch → truthy ch = true →
  m3u_locals app station = Return l → m3u.channel l = ch.
Proof.
  intros Hch Htrue. unfold m3u_locals.
  rewrite (dict_get_lookup _ _ _ Hch), (py_or_truthy _ _ Htrue).
  unfold mbind, result_bind.
  intros Hl. repeat case_match; try done; by simplify_eq.
Qed.

Lemma lineup_json_guide_number (app : App) (station : Station) (ch : pyval)
    (entry : json) :
  station !! "channel_remapped" = Some ch → truthy ch = true →
  lineup_json_station app station = Return entry →
  guide_number entry = Some (JVal ch).
Proof.
  intros Hch Htrue. unfold lineup_json_station.
  rewrite (dict_get_lookup _ _ _ Hch), (py_or_truthy _ _ Htrue).
  unfold mbind, result_bind.
  intros Hl. repeat case_match; try done; by simplify_eq.
Qed.

(** With a truthy remapped callsign, [m3u] does not read "callSign". *)
Lemma m3u_station_ignores_raw_callsign (app : App) (a b : Station)
    (cs : pyval) :
  a !! "callSign_remapped" = Some cs → truthy cs = true →
  agree_but "callSign" a b → m3u_station app b = m3u_station app a.
Proof.
  intros Hcs Htrue Hab.
  assert (Hcs' : b !! "callSign_remapped" = Some cs)
    by (by rewrite <-Hab).
  unfold m3u_station, m3u_locals.
  rewrite (dict_get_lookup _ _ _ Hcs), (dict_get_lookup _ _ _ Hcs').
  rewrite !(py_or_truthy _ _ Htrue).
  rewrite !(dict_item_agree "callSign" _ a b Hab) by done.
  by rewrite !(dict_get_agree "callSign" _ a b Hab) by done.
Qed.

(** With a truthy remapped channel, neither [m3u] nor [lineup_json] reads
    "channel". *)
Lemma m3u_station_ignores_raw_channel (app : App) (a b : Station)
    (ch : pyval) :
  a !! "channel_remapped" = Some ch → truthy ch = true →
  agree_but "channel" a b → m3u_station app b = m3u_station app a.
Proof.
  intros Hch Htrue Hab.
  assert (Hch' : b !! "channel_remapped" = Some ch)
    by (by rewrite <-Hab).
  unfold m3u_station, m3u_locals.
  rewrite (dict_get_lookup _ _ _ Hch), (dict_get_lookup _ _ _ Hch').
  rewrite !(py_or_truthy ch _ Htrue).
  rewrite !(dict_item_agree "channel" _ a b Hab) by done.
  by rewrite !(dict_get_agree "channel" _ a b Hab) by done.
Qed.

Lemma lineup_json_ignores_raw_channel (app : App) (a b : Station)
    (ch : pyval) :
  a !! "channel_remapped" = Some ch → truthy ch = true →
  agree_but "channel" a b →
  lineup_json_station app b = lineup_json_station app a.
Proof.
  intros Hch Htrue Hab.
  assert (Hch' : b !! "channel_remapped" = Some ch)
    by (by rewrite <-Hab).
  unfold lineup_json_station.
  rewrite (dict_get_lookup _ _ _ Hch), (dict_get_lookup _ _ _ Hch').
  rewrite !(py_or_truthy ch _ Htrue).
  by rewrite !(dict_item_agree "channel" _ a b Hab) by done.
Qed.

(** The claim as the specification words it: the remapped value wins
    whenever the snapshot has one. *)
Definition remapped_wins_when_present (app : App) (station : Station) : Prop :=
  (∀ cs l, station !! "callSign_remapped" = Some cs →
     m3u_locals app station = Return l →
     name_only cs = Return (m3u.callsign l))
  ∧ (∀ ch l, station !! "channel_remapped" = Some ch →
       m3u_locals app station = Return l → m3u.channel l = ch)
  ∧ (∀ ch entry, station !! "channel_remapped" = Some ch →
       lineup_json_station app station = Return entry →
       guide_number entry = Some (JVal ch)).




(** ** The stream and its process *)

(** Unfolding the monad down to the worlds. *)
Ltac run_M := unfold mbind, M_bind, mret, M_ret, emit, get_world, set_procs, set_gens, set_gen, deref, raise, lift; simpl.

(** The machine can make a [bytes] object of [k] bytes. *)
Definition fits (w : world) (k : nat) : Prop :=
  (Z.of_nat k ≤ max_bytes)%Z ∧ (Z.of_nat k ≤ memory w)%Z.

Lemma allocate_fits (w : world) (k : nat) :
  fits w k → allocate k w = (Return tt, w).
Proof.
  intros [Hmax Hmem]. unfold allocate.
  destruct (Z.ltb_spec max_bytes (Z.of_nat k)); [lia|].
  destruct (Z.ltb_spec (memory w) (Z.of_nat k)); [lia|]. done.
Qed.

Lemma allocate_world (w w1 : world) (k : nat) (r : result unit) :
  allocate k w = (r, w1) → w1 = w.
Proof. unfold allocate. repeat case_match; congruence. Qed.

(** Case distinction on the allocations of the goal. *)
Ltac allocations :=
  repeat match goal with
         | |- context [allocate ?k ?w] =>
             let H := fresh "Halloc" in
             let w' := fresh "w" in
             destruct (allocate k w) as [[[]|?] w'] eqn:H;
             apply allocate_world in H; subst w'; simpl
         end.

Definition popen_terminated (p : Popen) : Popen :=
  {| args := args p; stdout := stdout p; stdout_fault := stdout_fault p;
     stderr := stderr p; terminated := true; reaped := reaped p |}.

Definition popen_reaped (p : Popen) : Popen :=
  {| args := args p; stdout := []; stdout_fault := None; stderr := [];
     terminated := terminated p; reaped := true |}.

Lemma _stream_except_spec (g pid : nat) (gen : _stream.locals) (p : Popen) (w : world) :
  procs w !! pid = Some p → reaped p = false →
  _stream_except g gen pid w
  = (Return None,
     {| launch := launch w; memory := memory w;
        procs := <[pid := popen_reaped (popen_terminated p)]> (procs w);
        frames := frames w; threads := threads w;
        gens := <[g := {| _stream.outer := _stream.outer gen;
                          _stream.stop_thread := Some true;
                          _stream.state := GEN_CLOSED |}]> (gens w);
        trace := trace w ++ [Terminate pid; Communicate pid] |}).
Proof.
  intros Hp Hlive. unfold _stream_except, terminate, communicate.
  run_M. rewrite Hp. simpl. rewrite Hlive. simpl.
  rewrite list_lookup_insert_eq by (by eapply lookup_lt_Some).
  simpl. rewrite list_insert_insert_eq. rewrite <-app_assoc. reflexivity.
Qed.

(** What the [except:] branch leaves behind, given the log [before] it. *)
Definition cleaned_up (g pid : nat) (before : list event) (w' : world) : Prop :=
  trace w' = (before ++ [Terminate pid; Communicate pid])%list
  ∧ (∃ p', procs w' !! pid = Some p' ∧ terminated p' = true
           ∧ reaped p' = true)
  ∧ (∃ gen', gens w' !! g = Some gen' ∧ _stream.state gen' = GEN_CLOSED).

Lemma _stream_except_cleans (g pid : nat) (gen gen0 : _stream.locals)
    (p : Popen) (w : world) :
  procs w !! pid = Some p → reaped p = false → gens w !! g = Some gen0 →
  (_stream_except g gen pid w).1 = Return None
  ∧ cleaned_up g pid (trace w) (_stream_except g gen pid w).2.
Proof.
  intros Hp Hlive Hg. rewrite (_stream_except_spec g pid gen p w Hp Hlive).
  simpl. split; [done|]. split; [done|]. split.
  - eexists. split; [apply list_lookup_insert_eq; by eapply lookup_lt_Some|].
    done.
  - eexists. split; [apply list_lookup_insert_eq; by eapply lookup_lt_Some|].
    done.
Qed.

(** A [try:] branch that raises has changed nothing but the log, by at most
    the read it attempted. *)
Lemma _stream_try_raises (app : App) (g pid : nat) (gen : _stream.locals)
    (p : Popen) (w w1 : world) (e : exn) :
  procs w !! pid = Some p →
  _stream_try app g gen pid None w = (Raise e, w1) →
  procs w1 = procs w ∧ gens w1 = gens w
  ∧ (trace w1 = trace w ∨ ∃ n, trace w1 = (trace w ++ [Read pid n])%list).
Proof.
  intros Hp. unfold _stream_try, stdout_read. run_M.
  destruct (getattr (config app) "bytes_per_read") as [n|]; simpl.
  2:{ intros [= _ <-]. auto. }
  destruct (read_size n) as [size|]; simpl.
  2:{ intros [= _ <-]. simpl. eauto. }
  rewrite Hp. simpl. destruct (reaped p); simpl.
  { intros [= _ <-]. simpl. eauto. }
  destruct size as [k|], (stdout_fault p) as [[|k']|]; simpl; allocations;
    try done; intros [= _ <-]; simpl; eauto.
Qed.

Lemma _stream_resume_unfold (app : App) (g : nat) (thrown : option exn)
    (w : world) (gen : _stream.locals) (fr : watch.locals) :
  gens w !! g = Some gen → frames w !! _stream.outer gen = Some fr →
  _stream_resume app g thrown w
  = try_except (_stream_try app g gen (watch.ffmpeg_proc fr) thrown)
               (_stream_except g gen (watch.ffmpeg_proc fr)) w.
Proof.
  intros Hg Hfr. unfold _stream_resume. run_M. rewrite Hg. simpl.
  by rewrite Hfr.
Qed.

Lemma _stream_next_unfold (app : App) (g : nat) (w : world)
    (gen : _stream.locals) :
  gens w !! g = Some gen → _stream.state gen ≠ GEN_CLOSED →
  _stream_next app g w = _stream_resume app g None w.
Proof.
  intros Hg Hopen. unfold _stream_next. run_M. rewrite Hg. simpl.
  by destruct (_stream.state gen).
Qed.

Lemma _stream_close_unfold (app : App) (g : nat) (w : world)
    (gen : _stream.locals) :
  gens w !! g = Some gen → _stream.state gen = GEN_SUSPENDED →
  _stream_close app g w
  = (_stream_resume app g (Some GeneratorExit) ;; mret tt) w.
Proof.
  intros Hg Hsusp. unfold _stream_close. run_M. rewrite Hg. simpl.
  by rewrite Hsusp.
Qed.

(** A pipe that is about to fail makes the [try:] branch raise. *)
Lemma _stream_try_fault (app : App) (g pid : nat) (gen : _stream.locals)
    (p : Popen) (w : world) :
  procs w !! pid = Some p → reaped p = false → stdout_fault p = Some 0%nat →
  ∃ e w1, _stream_try app g gen pid None w = (Raise e, w1).
Proof.
  intros Hp Hlive Hfault. unfold _stream_try, stdout_read. run_M.
  destruct (getattr (config app) "bytes_per_read") as [n|]; simpl; [|eauto].
  destruct (read_size n) as [size|]; simpl; [|eauto].
  rewrite Hp. simpl. rewrite Hlive, Hfault. simpl.
  destruct size as [k|]; simpl; allocations; eauto.
Qed.

Section Session.
Variables (app : App) (w : world) (g : nat).
Variables (gen : _stream.locals) (fr : watch.locals) (p : Popen).
Hypothesis Hgen : gens w !! g = Some gen.
Hypothesis Hframe : frames w !! _stream.outer gen = Some fr.
Hypothesis Hproc : procs w !! watch.ffmpeg_proc fr = Some p.
Hypothesis Hlive : reaped p = false.

Lemma next_after_raise (e : exn) (w1 : world) :
  _stream.state gen ≠ GEN_CLOSED →
  _stream_try app g gen (watch.ffmpeg_proc fr) None w = (Raise e, w1) →
  (_stream_next app g w).1 = Return None
  ∧ cleaned_up g (watch.ffmpeg_proc fr) (trace w1) (_stream_next app g w).2.
Proof.
  intros Hopen Htry.
  rewrite (_stream_next_unfold app g w gen Hgen Hopen).
  rewrite (_stream_resume_unfold app g None w gen fr Hgen Hframe).
  unfold try_except. rewrite Htry.
  destruct (_stream_try_raises app g _ gen p w w1 e Hproc Htry)
    as (Hprocs & Hgens & _).
  apply (_stream_except_cleans g _ gen gen p w1); by rewrite ?Hprocs, ?Hgens.
Qed.

Lemma close_suspended :
  _stream.state gen = GEN_SUSPENDED →
  (_stream_close app g w).1 = Return tt
  ∧ cleaned_up g (watch.ffmpeg_proc fr) (trace w) (_stream_close app g w).2.
Proof.
  intros Hsusp.
  rewrite (_stream_close_unfold app g w gen Hgen Hsusp).
  unfold mbind, M_bind.
  rewrite (_stream_resume_unfold app g _ w gen fr Hgen Hframe).
  unfold try_except, _stream_try, raise.
  destruct (_stream_except_cleans g (watch.ffmpeg_proc fr) gen gen p w
              Hproc Hlive Hgen) as [Hret Hclean].
  destruct (_stream_except _ _ _ w) as [r w']. simpl in *. by subst r.
Qed.
End Session.

Definition suspended (gen : _stream.locals) : _stream.locals :=
  {| _stream.outer := _stream.outer gen;
     _stream.stop_thread := _stream.stop_thread gen;
     _stream.state := GEN_SUSPENDED |}.

(** The transcoder has written all it had and its pipe is sound. *)
Definition at_eof (p : Popen) : Prop :=
  stdout p = [] ∧ stdout_fault p = None ∧ reaped p = false.

Lemma _stream_next_eof (app : App) (w : world) (g : nat)
    (gen : _stream.locals) (fr : watch.locals) (p : Popen) (n : pyval)
    (size : option nat) :
  gens w !! g = Some gen →
  frames w !! _stream.outer gen = Some fr →
  procs w !! watch.ffmpeg_proc fr = Some p →
  at_eof p →
  _stream.state gen ≠ GEN_CLOSED →
  getattr (config app) "bytes_per_read" = Return n →
  read_size n = Return size →
  fits w (default 0%nat size) →
  _stream_next app g w
  = (Return (Some []),
     {| launch := launch w; memory := memory w; procs := procs w; frames := frames w;
        threads := threads w; gens := <[g := suspended gen]> (gens w);
        trace := trace w ++ [Read (watch.ffmpeg_proc fr) n] |}).
Proof.
  intros Hgen Hframe Hproc (Hout & Hfault & Hlive) Hopen Hn Hsize Hfits.
  rewrite (_stream_next_unfold app g w gen Hgen Hopen).
  rewrite (_stream_resume_unfold app g None w gen fr Hgen Hframe).
  unfold try_except, _stream_try, stdout_read. run_M.
  rewrite Hn. simpl. rewrite Hsize. simpl. rewrite Hproc. simpl.
  rewrite Hlive, Hfault, Hout. simpl.
  assert (Hsame : {| args := args p; stdout := []; stdout_fault := None;
                     stderr := stderr p; terminated := terminated p;
                     reaped := false |} = p).
  { destruct p; simpl in *; by subst. }
  destruct size as [k|]; simpl; rewrite allocate_fits by (by destruct w);
    simpl; rewrite ?take_nil, ?drop_nil, Hsame;
    by rewrite (list_insert_id _ _ _ Hproc).
Qed.

(** Pulling [k] chunks in a row: what each [next] gave, and the world
    after the last. *)
Fixpoint pulls (app : App) (g : nat) (k : nat) (w : world)
    : list (result (option bytes)) * world :=
  match k with
  | O => ([], w)
  | S k' =>
      let '(r, w1) := _stream_next app g w in
      let '(rs, w2) := pulls app g k' w1 in
      (r :: rs, w2)
  end.

(** The world after [k] pulls at the end of the file. *)
Definition eof_world (w : world) (g : nat) (gen : _stream.locals)
    (pid : nat) (n : pyval) (k : nat) : world :=
  {| launch := launch w; memory := memory w; procs := procs w; frames := frames w;
     threads := threads w;
     gens := match k with
             | O => gens w
             | S _ => <[g := suspended gen]> (gens w)
             end;
     trace := trace w ++ replicate k (Read pid n) |}.

Lemma pulls_eof (app : App) (g : nat) (fr : watch.locals) (p : Popen)
    (n : pyval) (size : option nat) (k : nat) :
  at_eof p →
  getattr (config app) "bytes_per_read" = Return n →
  read_size n = Return size →
  ∀ (w : world) (gen : _stream.locals),
    fits w (default 0%nat size) →
    gens w !! g = Some gen →
    frames w !! _stream.outer gen = Some fr →
    procs w !! watch.ffmpeg_proc fr = Some p →
    _stream.state gen ≠ GEN_CLOSED →
    pulls app g k w
    = (replicate k (Return (Some [])),
       eof_world w g gen (watch.ffmpeg_proc fr) n k).
Proof.
  intros Heof Hn Hsize.
  induction k as [|k IH]; intros w gen Hfits Hgen Hframe Hproc Hopen.
  - unfold eof_world. destruct w. simpl. by rewrite app_nil_r.
  - simpl.
    rewrite (_stream_next_eof app w g gen fr p n size Hgen Hframe Hproc Heof
               Hopen Hn Hsize Hfits).
    rewrite (IH _ (suspended gen)); simpl; try done.
    2:{ apply list_lookup_insert_eq. by eapply lookup_lt_Some. }
    unfold eof_world. simpl. rewrite <-app_assoc. simpl.
    destruct k; simpl; [done|]. by rewrite list_insert_insert_eq.
Qed.



(** Generator [g] is open, it reads from process [pid], and that process
    has written all it had; [config.bytes_per_read] is a size [read]
    accepts, and one the machine can make a [bytes] object of. *)
Definition session_at_eof (app : App) (g pid : nat) (w : world) : Prop :=
  ∃ gen fr p n size,
    gens w !! g = Some gen
    ∧ frames w !! _stream.outer gen = Some fr
    ∧ watch.ffmpeg_proc fr = pid
    ∧ procs w !! pid = Some p
    ∧ at_eof p
    ∧ _stream.state gen ≠ GEN_CLOSED
    ∧ getattr (config app) "bytes_per_read" = Return n
    ∧ read_size n = Return size
    ∧ fits w (default 0%nat size).

Lemma pulls_at_eof (app : App) (g pid : nat) (w : world) (k : nat) :
  session_at_eof app g pid w →
  ∃ gen n, gens w !! g = Some gen
           ∧ pulls app g k w = (replicate k (Return (Some [])),
                                eof_world w g gen pid n k).
Proof.
  intros (gen & fr & p & n & size & Hgen & Hframe & <- & Hproc & Heof & Hopen
          & Hn & Hsize & Hfits).
  exists gen, n. split; [done|]. by eapply pulls_eof.
Qed.

Lemma session_at_eof_stays (app : App) (g pid : nat) (w : world)
    (gen : _stream.locals) (n : pyval) (k : nat) :
  gens w !! g = Some gen →
  session_at_eof app g pid w →
  session_at_eof app g pid (eof_world w g gen pid n k).
Proof.
  intros Hgen (gen' & fr & p & n' & size & Hgen' & Hframe & Hpid & Hproc
               & Heof & Hopen & Hn & Hsize & Hfits).
  assert (gen' = gen) as -> by congruence.
  destruct k as [|k].
  - exists gen, fr, p, n', size. simpl.
    repeat split; try done; apply Heof || apply Hfits.
  - exists (suspended gen), fr, p, n', size. simpl.
    split; [apply list_lookup_insert_eq; by eapply lookup_lt_Some|].
    repeat split; try done; apply Heof || apply Hfits.
Qed.

(** The claim as the specification words it: with the transcoder's output
    at its end, pulling ends the sequence and the process is reaped. *)
Definition ends_at_eof (app : App) (g pid : nat) (w : world) : Prop :=
  ∃ k, Return None ∈ (pulls app g k w).1
       ∨ ∃ p', procs (pulls app g k w).2 !! pid = Some p' ∧ reaped p' = true.

Lemma example_at_eof :
  session_at_eof Example.app 0 0 (Example.watching Example.boot 2).
Proof.
  do 5 eexists.
  split; [vm_compute; reflexivity|].
  split; [vm_compute; reflexivity|].
  split; [vm_compute; reflexivity|].
  split; [vm_compute; reflexivity|].
  split; [by repeat split|].
  split; [vm_compute; discriminate|].
  split; [vm_compute; reflexivity|].
  split; [vm_compute; reflexivity|].
  split; vm_compute; discriminate.
Qed.

(** A client that has pulled the six bytes of the transcoder in two chunks:
    the pipe is at its end, and however many chunks are pulled, none is the
    end of the sequence and the process is not reaped. *)
Lemma ends_at_eof_fails :
  session_at_eof Example.app 0 0 (Example.watching Example.boot 2)
  ∧ ¬ ends_at_eof Example.app 0 0 (Example.watching Example.boot 2).
Proof.
  split; [exact example_at_eof|].
  intros [k Hends].
  destruct (pulls_at_eof _ _ _ _ k example_at_eof) as (gen & n & _ & Hpulls).
  rewrite Hpulls in Hends. simpl in Hends.
  destruct Hends as [Hstop|(p' & Hp' & Hreaped)].
  - apply elem_of_replicate in Hstop as [Hstop _]. discriminate Hstop.
  - vm_compute in Hp'. injection Hp' as <-. discriminate Hreaped.
Qed.

(** C1, amended: with the transcoder's output at its end, every [next]
    yields an empty chunk; the sequence does not end of itself, the process
    is left as it is (not terminated, not reaped) and the log shows reads
    only.  Termination and reaping are in the [except:] branch alone: they
    run when the consumer then closes the generator. *)
Theorem eof_yields_empty_chunks (app : App) (g pid : nat) (w : world)
    (k : nat) :
  session_at_eof app g pid w →
  let w' := (pulls app g k w).2 in
  (pulls app g k w).1 = replicate k (Return (Some []))
  ∧ procs w' = procs w
  ∧ (∃ n, trace w' = (trace w ++ replicate k (Read pid n))%list)
  ∧ session_at_eof app g pid w'
  ∧ (k ≠ 0%nat →
     (_stream_close app g w').1 = Return tt
     ∧ cleaned_up g pid (trace w') (_stream_close app g w').2).
Proof.
  intros Heof w'. subst w'.
  destruct (pulls_at_eof app g pid w k Heof) as (gen & n & Hgen & ->).
  simpl. split; [done|]. split; [done|]. split; [by exists n|].
  split; [by apply session_at_eof_stays|].
  intros Hk. destruct k as [|k]; [done|].
  destruct Heof as (gen' & fr & p & n' & size & Hgen' & Hframe & <- & Hproc
                    & (Hout & Hfault & Hlive) & Hopen & Hn & Hsize & Hfits).
  assert (gen' = gen) as -> by congruence.
  assert (Hsusp : gens (eof_world w g gen (watch.ffmpeg_proc fr) n (S k)) !! g
                  = Some (suspended gen)).
  { simpl. apply list_lookup_insert_eq. by eapply lookup_lt_Some. }
  exact (close_suspended app (eof_world w g gen (watch.ffmpeg_proc fr) n (S k))
           g (suspended gen) fr p Hsusp Hframe Hproc Hlive eq_refl).
Qed.

Lemma eof_yields_empty_chunks_witness :
  (pulls Example.app 0 3 (Example.watching Example.boot 2)).1
  = [Return (Some []); Return (Some []); Return (Some [])]
  ∧ procs (pulls Example.app 0 3 (Example.watching Example.boot 2)).2
    = procs (Example.watching Example.boot 2).
Proof.
  destruct (eof_yields_empty_chunks Example.app 0 0
              (Example.watching Example.boot 2) 3 example_at_eof)
    as (Hchunks & Hprocs & _).
  split; assumption.
Defined.

(** ** Admission *)

(** The claim as the specification words it: the processes that stream at
    once are no more than the configured tuner count. *)
Definition admission_bounded (app : App) (w : world) : Prop :=
  ∀ n, getattr (config app) "tuner_count" = Return (PyInt n) →
       (Z.of_nat (length (live w)) ≤ n)%Z.

(** One tuner is configured and two clients watch at once. *)
Lemma admission_bounded_fails :
  let w := the_world
             (run Example.server0
                [Serve (Example.get (watch_route "104"));
                 Serve (Example.get (watch_route "104")); Pull 0; Pull 1]) in
  getattr (config Example.app) "tuner_count" = Return (PyInt 1)
  ∧ length (live w) = 2%nat
  ∧ _stream.state <$> gens w = [GEN_SUSPENDED; GEN_SUSPENDED]
  ∧ ¬ admission_bounded Example.app w.
Proof.
  intros w.
  assert (Hcount : getattr (config Example.app) "tuner_count"
                   = Return (PyInt 1)) by reflexivity.
  assert (Hlive : length (live w) = 2%nat) by (vm_compute; reflexivity).
  split; [exact Hcount|]. split; [exact Hlive|].
  split; [vm_compute; reflexivity|].
  intros Hbound. specialize (Hbound 1%Z Hcount). rewrite Hlive in Hbound.
  lia.
Qed.

Definition started (args : list string) (c : Child) : Popen :=
  {| args := args; stdout := child_stdout c; stdout_fault := child_fault c;
     stderr := child_stderr c; terminated := false; reaped := false |}.

Definition ffmpeg_args (ffmpeg uri : string) : list string :=
  [ffmpeg; "-i"; uri; "-codec"; "copy"; "-f"; "mpegts"; "pipe:1"].

(** What a call of [watch] that gets its URI and its process leaves. *)
Lemma watch_started (app : App) (channel_id : string) (w : world)
    (uri : string) (cfg : pyval) (ffmpeg : string) (child : Child) :
  get_station_stream_uri (locast_service app) channel_id = Return uri →
  getattr (config app) "ffmpeg" = Return cfg →
  py_or cfg (Return (PyStr "ffmpeg")) = Return (PyStr ffmpeg) →
  launch w (ffmpeg_args ffmpeg uri) = Some child →
  (watch app channel_id w).1
  = Return {| body := Streamed (length (gens w)); status := 200;
              content_type := video_mpeg; location := None |}
  ∧ procs (watch app channel_id w).2
    = (procs w ++ [started (ffmpeg_args ffmpeg uri) child])%list
  ∧ launch (watch app channel_id w).2 = launch w.
Proof.
  intros Huri Hcfg Hor Hlaunch.
  unfold watch, subprocess_Popen, log_info, set_frames, set_threads.
  run_M. rewrite Huri. simpl. rewrite Hcfg. simpl. rewrite Hor. simpl.
  unfold ffmpeg_args in Hlaunch. rewrite Hlaunch. simpl. done.
Qed.

Lemma getattr_other_option (c : Configuration) (key name : string)
    (v : pyval) :
  key ≠ name → getattr (<[key := v]> c) name = getattr c name.
Proof. intros Hne. unfold getattr. by rewrite lookup_insert_ne. Qed.

Lemma live_app (w : world) (ps qs : list Popen) :
  procs w = (ps ++ qs)%list →
  live w = (filter (λ p, reaped p = false) ps
            ++ filter (λ p, reaped p = false) qs)%list.
Proof. intros H. unfold live. rewrite H. apply filter_app. Qed.

(** C3, amended: [watch] makes no admission check.  It does not read
    [tuner_count], and every request whose channel resolves and whose
    transcoder launches is answered with a stream and adds one live process,
    however many are live already. *)
Theorem watch_admits_every_request (app : App) (channel_id : string)
    (w : world) (uri : string) (cfg : pyval) (ffmpeg : string)
    (child : Child) :
  get_station_stream_uri (locast_service app) channel_id = Return uri →
  getattr (config app) "ffmpeg" = Return cfg →
  py_or cfg (Return (PyStr "ffmpeg")) = Return (PyStr ffmpeg) →
  launch w (ffmpeg_args ffmpeg uri) = Some child →
  (∃ g, (watch app channel_id w).1
        = Return {| body := Streamed g; status := 200;
                    content_type := video_mpeg; location := None |})
  ∧ length (live (watch app channel_id w).2) = S (length (live w))
  ∧ launch (watch app channel_id w).2 = launch w
  ∧ ∀ v, watch (with_config app (<["tuner_count" := v]> (config app)))
           channel_id w
         = watch app channel_id w.
Proof.
  intros Huri Hcfg Hor Hlaunch.
  destruct (watch_started app channel_id w uri cfg ffmpeg child Huri Hcfg Hor
              Hlaunch) as (Hret & Hprocs & Hsame).
  split; [eauto|]. split; [|split; [done|]].
  - rewrite (live_app _ _ _ Hprocs), length_app. unfold live. simpl. lia.
  - intros v. unfold watch, with_config. simpl.
    by rewrite getattr_other_option.
Qed.

Lemma watch_admits_every_request_witness :
  length (live (watch Example.app "104"
                  (watch Example.app "104" Example.boot).2).2)
  = S (length (live (watch Example.app "104" Example.boot).2)).
Proof.
  apply (watch_admits_every_request Example.app "104"
           (watch Example.app "104" Example.boot).2 "https://cdn/104.m3u8"
           PyNone "ffmpeg"
           {| child_stdout := [Byte.x00; Byte.x01; Byte.x02; Byte.x03;
                               Byte.x04; Byte.x05];
              child_stderr := [Some "frame=1"; Some "frame=2"];
              child_fault := None |});
    reflexivity.
Defined.

(** ** The logging thread *)

(** One client watches channel 104; the logging thread is scheduled, a
    chunk is pulled, the client goes away and the server closes the
    generator. *)
Definition hung_up : server :=
  run Example.server0
    [Serve (Example.get (watch_route "104")); Schedule 0; Pull 0; Hangup 0].

Lemma hung_up_schedule : step hung_up (Schedule 0) = hung_up.
Proof. vm_compute. reflexivity. Qed.

Lemma run_schedule_fixed (s : server) (t k : nat) :
  step s (Schedule t) = s → run s (replicate k (Schedule t)) = s.
Proof.
  intros Hfix. induction k as [|k IH]; [done|].
  change (run s (replicate (S k) (Schedule t)))
    with (run (step s (Schedule t)) (replicate k (Schedule t))).
  by rewrite Hfix.
Qed.

(** C4, the code at the failing input: after the cleanup of [_stream] has
    run (the process is reaped, and [stop_thread] is True in the frame of
    the generator), the [stop_thread] of the frame of [watch], which is the
    one [stop()] reads, is still False, and however often the thread is
    scheduled it stays in its loop. *)
Theorem log_output_outlives_cleanup (k : nat) :
  let w := the_world (run hung_up (replicate k (Schedule 0))) in
  reaped <$> procs w = [true]
  ∧ _stream.stop_thread <$> gens w = [Some true]
  ∧ watch.stop_thread <$> frames w = [false]
  ∧ log_output.state <$> threads w = [THREAD_LOOP].
Proof.
  rewrite (run_schedule_fixed hung_up 0 k hung_up_schedule).
  vm_compute. done.
Qed.

(** * Further properties *)

(** ** [aspect] and [quality] *)

(** [r] occurs in [value]. *)
Definition occurs (r value : string) : Prop :=
  ∃ before after, value = before +:+ r +:+ after.

Lemma prefix_split (r value : string) :
  starts_with r value = true ↔ ∃ after, value = r +:+ after.
Proof.
  revert value. induction r as [|a r IH]; intros value; simpl.
  - split; [intros _; by exists value|done].
  - destruct value as [|b value]; simpl.
    + split; [done|]. by intros [after [=]].
    + rewrite andb_true_iff, Ascii.eqb_eq, IH. split.
      * intros [-> [after ->]]. by exists after.
      * intros [after [= -> ->]]. split; [done|by exists after].
Qed.

Lemma str_in_occurs (r value : string) :
  str_in r value = true ↔ occurs r value.
Proof.
  induction value as [|b value IH]; simpl.
  - rewrite orb_false_r, prefix_split. split.
    + intros [after H]. by exists "", after.
    + intros ([|c before] & after & H); [by exists after|done].
  - rewrite orb_true_iff, prefix_split, IH. split.
    + intros [[after H]|(before & after & H)].
      * by exists "", after.
      * exists (String b before), after. simpl. by rewrite H.
    + intros ([|c before] & after & H).
      * left. by exists after.
      * right. injection H as -> H. by exists before, after.
Qed.

(** X13: [aspect] gives "16:9" exactly when the video properties mention
    "1080", "720" or "HDTV" somewhere, and "4:3" exactly when they mention
    none of them. *)
Theorem aspect_wide_iff (value : string) :
  (aspect (PyStr value) = Return "16:9"
   ↔ occurs "1080" value ∨ occurs "720" value ∨ occurs "HDTV" value)
  ∧ (aspect (PyStr value) = Return "4:3"
     ↔ ¬ (occurs "1080" value ∨ occurs "720" value ∨ occurs "HDTV" value)).
Proof.
  rewrite <-!str_in_occurs. unfold aspect. simpl.
  destruct (str_in "1080" value), (str_in "720" value),
    (str_in "HDTV" value); simpl; split; split; try done; intuition congruence.
Qed.

(** X14: [quality] gives "HDTV" exactly when the video properties mention
    "HDTV", and "SD" otherwise; whatever is rated "HDTV" is rated "16:9" by
    [aspect]. *)
Theorem quality_hdtv_iff (value : string) :
  (quality (PyStr value) = Return "HDTV" ↔ occurs "HDTV" value)
  ∧ (quality (PyStr value) = Return "SD" ↔ ¬ occurs "HDTV" value)
  ∧ (quality (PyStr value) = Return "HDTV" →
     aspect (PyStr value) = Return "16:9").
Proof.
  rewrite <-!str_in_occurs. unfold quality, aspect. simpl.
  destruct (str_in "1080" value), (str_in "720" value),
    (str_in "HDTV" value); simpl; repeat split; try done; intuition congruence.
Qed.

(** ** [name_only] *)

(** One of the ten digits of ASCII. *)
Definition is_digit (a : ascii) : bool :=
  let n := nat_of_ascii a in (48 <=? n)%nat && (n <=? 57)%nat.

(** Every character of [s] is one of the ten digits of ASCII. *)
Fixpoint digits (s : string) : bool :=
  match s with
  | EmptyString => true
  | String a r => is_digit a && digits r
  end.

(** [s] has no newline. *)
Fixpoint one_line (s : string) : bool :=
  match s with
  | EmptyString => true
  | String a r => negb (Ascii.eqb a "010") && one_line r
  end.

(** A character of ASCII that is not a digit. *)
Definition no_digit (a : ascii) : bool :=
  (N_of_ascii a <? 128)%N && negb (is_digit a).

(** [s] is empty or starts with a character of ASCII that is not a digit. *)
Definition no_digit_ahead (s : string) : Prop :=
  match s with
  | EmptyString => True
  | String a _ => no_digit a = true
  end.

(** [s] starts with a decimal digit, of whatever script. *)
Definition decimal_ahead (s : string) : Prop :=
  ∃ cp k, utf8_head s = Some (cp, k) ∧ is_decimal cp = true.

Lemma append_cons (a : ascii) (s t : string) :
  String a s +:+ t = String a (s +:+ t).
Proof. reflexivity. Qed.

Lemma append_nil_l (s : string) : "" +:+ s = s.
Proof. reflexivity. Qed.

Lemma append_nil_r (s : string) : s +:+ "" = s.
Proof. induction s as [|a s IH]; [done|]. by rewrite append_cons, IH. Qed.

Lemma append_assoc (a b c : string) : (a +:+ b) +:+ c = a +:+ (b +:+ c).
Proof.
  induction a as [|x a IH]; [done|]. by rewrite !append_cons, IH.
Qed.

Lemma span_digits_digit (a : ascii) (r : string) :
  is_digit a = true →
  span_digits (String a r)
  = let '(d, t) := span_digits r in (String a d, t).
Proof.
  intros Ha. destruct a as [[] [] [] [] [] [] [] []]; try discriminate Ha;
    reflexivity.
Qed.

Lemma span_digits_no_digit (s : string) :
  no_digit_ahead s → span_digits s = ("", s).
Proof.
  destruct s as [|a r]; [done|]. simpl. intros Ha.
  destruct a as [[] [] [] [] [] [] [] []]; try discriminate Ha; reflexivity.
Qed.

Lemma span_digits_app (d s : string) :
  digits d = true → no_digit_ahead s → span_digits (d +:+ s) = (d, s).
Proof.
  intros Hd Hs. induction d as [|a d IH].
  - rewrite append_nil_l. by apply span_digits_no_digit.
  - simpl in Hd. apply andb_true_iff in Hd as [Ha Hd].
    rewrite append_cons, (span_digits_digit _ _ Ha). by rewrite IH.
Qed.

Lemma dot_plus_one_line (s : string) : one_line s = true → dot_plus s = s.
Proof.
  induction s as [|a s IH]; simpl; [done|].
  intros [Ha Hs]%andb_true_iff. apply negb_true_iff in Ha.
  by rewrite Ha, IH.
Qed.

Lemma dot_plus_occurs (s : string) : ∃ after, s = dot_plus s +:+ after.
Proof.
  induction s as [|a s [after IH]]; simpl; [by exists ""|].
  destruct (Ascii.eqb a "010"); [by eexists|].
  exists after. rewrite append_cons. by f_equal.
Qed.

Lemma span_digits_from_split (s : string) (pending : nat) :
  s = (span_digits_from pending s).1 +:+ (span_digits_from pending s).2.
Proof.
  revert pending. induction s as [|a s IH]; intros pending; [done|].
  simpl. destruct pending as [|k].
  - destruct (head_width is_decimal (String a s)) as [|k]; [done|].
    specialize (IH k). destruct (span_digits_from k s) as [d t].
    simpl in *. rewrite append_cons. by f_equal.
  - specialize (IH k). destruct (span_digits_from k s) as [d t].
    simpl in *. rewrite append_cons. by f_equal.
Qed.

Lemma span_digits_split (s : string) :
  s = (span_digits s).1 +:+ (span_digits s).2.
Proof. apply span_digits_from_split. Qed.

Lemma span_digits_none (s : string) :
  ¬ decimal_ahead s → span_digits s = ("", s).
Proof.
  intros Hs. destruct s as [|a r]; [done|].
  unfold span_digits. simpl.
  destruct (head_width is_decimal (String a r)) as [|k] eqn:Hwidth; [done|].
  destruct Hs. unfold decimal_ahead, head_width in *.
  destruct (utf8_head (String a r)) as [[cp k']|]; [|done].
  destruct (is_decimal cp) eqn:Hcp; [|done]. by exists cp, k'.
Qed.

(** X1: on a string made of digits, a dot, digits, a space and a name that
    is not empty and has no newline, [name_only] gives the name ("4.1 CBS"
    gives "CBS", whatever the numbers are). *)
Theorem name_only_strips_channel (major minor name : string) :
  digits major = true → major ≠ "" →
  digits minor = true → minor ≠ "" →
  one_line name = true → name ≠ "" →
  name_only (PyStr (major +:+ "." +:+ minor +:+ " " +:+ name)) = Return name.
Proof.
  intros Hmajor Hmajor' Hminor Hminor' Hline Hname.
  unfold name_only, re_match_callsign.
  rewrite (span_digits_app major ("." +:+ minor +:+ " " +:+ name) Hmajor
             eq_refl).
  destruct (String.eqb_spec major "") as [|_]; [done|].
  change ("." +:+ minor +:+ " " +:+ name)
    with (String "." (minor +:+ " " +:+ name)).
  cbv iota beta.
  rewrite (span_digits_app minor (" " +:+ name) Hminor eq_refl).
  destruct (String.eqb_spec minor "") as [|_]; [done|].
  change (" " +:+ name) with (String " " name). cbv iota beta zeta.
  rewrite (dot_plus_one_line name Hline).
  by destruct (String.eqb_spec name "") as [|_].
Qed.

Lemma name_only_strips_channel_witness :
  name_only (PyStr "13.402 KERA HD") = Return "KERA HD".
Proof.
  apply (name_only_strips_channel "13" "402" "KERA HD");
    solve [reflexivity | discriminate].
Defined.



(** ** The chunks of [_stream] *)

Definition popen_read (p : Popen) (k : nat) : Popen :=
  {| args := args p; stdout := drop k (stdout p);
     stdout_fault := stdout_fault p; stderr := stderr p;
     terminated := terminated p; reaped := reaped p |}.

(** The world after generator [g] has read [k] bytes from process [pid]
    with one call of [read(n)]. *)
Definition read_world (w : world) (g : nat) (gen : _stream.locals)
    (pid : nat) (p : Popen) (n : pyval) (k : nat) : world :=
  {| launch := launch w; memory := memory w; procs := <[pid := popen_read p k]> (procs w);
     frames := frames w; threads := threads w;
     gens := <[g := suspended gen]> (gens w);
     trace := trace w ++ [Read pid n] |}.

Lemma _stream_next_reads (app : App) (w : world) (g : nat)
    (gen : _stream.locals) (fr : watch.locals) (p : Popen) (n : Z) :
  gens w !! g = Some gen →
  frames w !! _stream.outer gen = Some fr →
  procs w !! watch.ffmpeg_proc fr = Some p →
  reaped p = false → stdout_fault p = None →
  _stream.state gen ≠ GEN_CLOSED →
  getattr (config app) "bytes_per_read" = Return (PyInt n) → (0 ≤ n)%Z →
  fits w (Z.to_nat n) →
  _stream_next app g w
  = (Return (Some (take (Z.to_nat n) (stdout p))),
     read_world w g gen (watch.ffmpeg_proc fr) p (PyInt n) (Z.to_nat n)).
Proof.
  intros Hgen Hframe Hproc Hlive Hfault Hopen Hn Hpos Hfits.
  assert (Hsize : read_size (PyInt n) = Return (Some (Z.to_nat n))).
  { destruct Hfits as [Hmax _]. unfold max_bytes in Hmax. unfold read_size.
    destruct (Z.ltb_spec n (- 2 ^ 63)); [lia|].
    destruct (Z.leb_spec (2 ^ 63) n); [lia|]. simpl.
    destruct (Z.ltb_spec n (-1)); [lia|].
    destruct (Z.eqb_spec n (-1)); [lia|]. done. }
  remember (PyInt n) as v eqn:Hv.
  rewrite (_stream_next_unfold app g w gen Hgen Hopen).
  rewrite (_stream_resume_unfold app g None w gen fr Hgen Hframe).
  unfold try_except, _stream_try, stdout_read. run_M.
  rewrite Hn. simpl. rewrite Hsize. simpl.
  rewrite Hproc. simpl. rewrite Hlive, Hfault. simpl.
  rewrite allocate_fits by (by destruct w). simpl.
  unfold read_world, popen_read. by rewrite Hfault, Hlive.
Qed.

(** The first [k] slices of [n] bytes of [data]. *)
Fixpoint slices (n k : nat) (data : bytes) : list bytes :=
  match k with
  | O => []
  | S k' => take n data :: slices n k' (drop n data)
  end.

Lemma slices_concat (n k : nat) (data : bytes) :
  concat (slices n k data) = take (k * n) data.
Proof.
  revert data. induction k as [|k IH]; intros data; simpl; [done|].
  by rewrite IH, take_take_drop.
Qed.

Lemma slices_bounded (n k : nat) (data : bytes) :
  Forall (λ chunk, length chunk ≤ n)%nat (slices n k data).
Proof.
  revert data. induction k as [|k IH]; intros data; simpl; [done|].
  constructor; [|done]. rewrite length_take. lia.
Qed.

Lemma slices_length (n k : nat) (data : bytes) :
  length (slices n k data) = k.
Proof.
  revert data. induction k as [|k IH]; intros data; simpl; [done|].
  by rewrite IH.
Qed.

Lemma pulls_read (app : App) (g : nat) (fr : watch.locals) (n : Z)
    (k : nat) :
  getattr (config app) "bytes_per_read" = Return (PyInt n) → (0 ≤ n)%Z →
  ∀ (w : world) (gen : _stream.locals) (p : Popen),
    fits w (Z.to_nat n) →
    gens w !! g = Some gen →
    frames w !! _stream.outer gen = Some fr →
    procs w !! watch.ffmpeg_proc fr = Some p →
    reaped p = false → stdout_fault p = None →
    _stream.state gen ≠ GEN_CLOSED →
    (pulls app g k w).1
    = (λ chunk, Return (Some chunk)) <$> slices (Z.to_nat n) k (stdout p)
    ∧ procs (pulls app g k w).2 !! watch.ffmpeg_proc fr
      = Some (popen_read p (k * Z.to_nat n)).
Proof.
  intros Hn Hpos. induction k as [|k IH];
    intros w gen p Hfits Hgen Hframe Hproc Hlive Hfault Hopen.
  - simpl. split; [done|]. rewrite Hproc. f_equal. by destruct p.
  - simpl.
    rewrite (_stream_next_reads app w g gen fr p n Hgen Hframe Hproc Hlive
               Hfault Hopen Hn Hpos Hfits).
    destruct (IH (read_world w g gen (watch.ffmpeg_proc fr) p (PyInt n)
                    (Z.to_nat n))
                 (suspended gen) (popen_read p (Z.to_nat n)))
      as [Hchunks Hp]; simpl; try done.
    { apply list_lookup_insert_eq. by eapply lookup_lt_Some. }
    { apply list_lookup_insert_eq. by eapply lookup_lt_Some. }
    destruct (pulls app g k _) as [rs w2]. simpl in *.
    rewrite Hchunks, Hp. split; [done|].
    unfold popen_read. simpl. by rewrite drop_drop.
Qed.

(** X3: while the pipe is sound and [config.bytes_per_read] is a number
    [n] that is not negative and of which the machine can make a [bytes]
    object (no more than [max_bytes] and than the memory it has), the chunks
    the sequence yields are at most [n] bytes each and, put end to end, they
    are the bytes the transcoder wrote, in order and without a gap: the
    first [k] chunks are the first [k * n] bytes, and the process keeps the
    rest. *)
Theorem chunks_are_the_stream (app : App) (w : world) (g : nat)
    (gen : _stream.locals) (fr : watch.locals) (p : Popen) (n : Z)
    (k : nat) :
  gens w !! g = Some gen →
  frames w !! _stream.outer gen = Some fr →
  procs w !! watch.ffmpeg_proc fr = Some p →
  reaped p = false → stdout_fault p = None →
  _stream.state gen ≠ GEN_CLOSED →
  getattr (config app) "bytes_per_read" = Return (PyInt n) → (0 ≤ n)%Z →
  fits w (Z.to_nat n) →
  ∃ chunks : list bytes,
    (pulls app g k w).1 = (λ chunk, Return (Some chunk)) <$> chunks
    ∧ length chunks = k
    ∧ Forall (λ chunk, length chunk ≤ Z.to_nat n)%nat chunks
    ∧ concat chunks = take (k * Z.to_nat n) (stdout p)
    ∧ ∃ p', procs (pulls app g k w).2 !! watch.ffmpeg_proc fr = Some p'
            ∧ stdout p' = drop (k * Z.to_nat n) (stdout p)
            ∧ terminated p' = terminated p ∧ reaped p' = false.
Proof.
  intros Hgen Hframe Hproc Hlive Hfault Hopen Hn Hpos Hfits.
  destruct (pulls_read app g fr n k Hn Hpos w gen p Hfits Hgen Hframe Hproc
              Hlive Hfault Hopen) as [Hchunks Hp].
  exists (slices (Z.to_nat n) k (stdout p)).
  split; [done|]. split; [apply slices_length|].
  split; [apply slices_bounded|]. split; [apply slices_concat|].
  eexists. split; [exact Hp|]. by repeat split.
Qed.

Lemma chunks_are_the_stream_witness :
  ∃ chunks : list bytes,
    (pulls Example.app 0 2 (Example.watching Example.boot 0)).1
    = (λ chunk, Return (Some chunk)) <$> chunks
    ∧ length chunks = 2%nat
    ∧ Forall (λ chunk, length chunk ≤ 4)%nat chunks
    ∧ concat chunks
      = [Byte.x00; Byte.x01; Byte.x02; Byte.x03; Byte.x04; Byte.x05].
Proof.
  destruct (chunks_are_the_stream Example.app
              (Example.watching Example.boot 0) 0 _ _ _ 4 2
              eq_refl eq_refl eq_refl eq_refl eq_refl
              ltac:(vm_compute; discriminate) eq_refl ltac:(lia)
              ltac:(split; vm_compute; discriminate))
    as (chunks & H1 & H2 & H3 & H4 & _).
  exists chunks. repeat split; assumption.
Defined.

(** ** A generator that is closed, or closed too early *)

Definition closed (gen : _stream.locals) : _stream.locals :=
  {| _stream.outer := _stream.outer gen;
     _stream.stop_thread := _stream.stop_thread gen;
     _stream.state := GEN_CLOSED |}.

(** The actions on the generator [g]. *)
Definition on_stream (g : nat) (a : action) : Prop :=
  a = Pull g ∨ a = Hangup g.

Lemma closed_step (s : server) (g : nat) (gen : _stream.locals) (a : action) :
  gens (the_world s) !! g = Some gen → _stream.state gen = GEN_CLOSED →
  on_stream g a → step s a = s.
Proof.
  intros Hgen Hclosed [->| ->]; destruct s as [app w]; simpl in *;
    unfold _stream_next, _stream_close; run_M; rewrite Hgen; simpl;
    by rewrite Hclosed.
Qed.

(** X4: once the [except:] branch has run, the sequence is over for good:
    after a hang-up of a suspended stream, any further pulls and hang-ups
    on it give StopIteration and leave the world as it is, so [terminate]
    and [communicate] are called once per stream and no more. *)
Theorem cleanup_runs_once (s : server) (g : nat) (gen : _stream.locals)
    (fr : watch.locals) (p : Popen) (l : list action) :
  gens (the_world s) !! g = Some gen →
  frames (the_world s) !! _stream.outer gen = Some fr →
  procs (the_world s) !! watch.ffmpeg_proc fr = Some p →
  reaped p = false →
  _stream.state gen = GEN_SUSPENDED →
  Forall (on_stream g) l →
  run (step s (Hangup g)) l = step s (Hangup g)
  ∧ trace (the_world (run (step s (Hangup g)) l))
    = (trace (the_world s)
       ++ [Terminate (watch.ffmpeg_proc fr);
           Communicate (watch.ffmpeg_proc fr)])%list
  ∧ (_stream_next (the_app s) g (the_world (step s (Hangup g)))).1
    = Return None.
Proof.
  intros Hgen Hframe Hproc Hlive Hsusp Hl.
  destruct (close_suspended (the_app s) (the_world s) g gen fr p Hgen Hframe
              Hproc Hlive Hsusp) as (_ & Htrace & _ & gen' & Hgen' & Hclosed).
  assert (Hrun : run (step s (Hangup g)) l = step s (Hangup g)).
  { induction Hl as [|a l Ha _ IH]; [done|].
    change (run (step s (Hangup g)) (a :: l))
      with (run (step (step s (Hangup g)) a) l).
    by rewrite (closed_step (step s (Hangup g)) g gen' a Hgen' Hclosed Ha). }
  rewrite Hrun. split; [done|]. split; [exact Htrace|].
  simpl. unfold _stream_next. run_M. rewrite Hgen'. simpl.
  by rewrite Hclosed.
Qed.

Lemma cleanup_runs_once_witness :
  let s := {| the_app := Example.app;
              the_world := Example.watching Example.boot 1 |} in
  run (step s (Hangup 0)) [Pull 0; Hangup 0; Pull 0] = step s (Hangup 0).
Proof.
  intros s.
  refine (proj1 (cleanup_runs_once s 0 _ _ _ [Pull 0; Hangup 0; Pull 0]
                   eq_refl eq_refl eq_refl eq_refl eq_refl _)).
  repeat constructor; by right.
Defined.

(** X5: a stream that is closed before its first chunk was pulled runs
    nothing of [_stream]: the generator is marked closed, nothing is added
    to the log, and the transcoder is neither terminated nor reaped. *)
Theorem close_before_start_leaves_process (app : App) (w : world) (g : nat)
    (gen : _stream.locals) :
  gens w !! g = Some gen →
  _stream.state gen = GEN_CREATED →
  let w' := (_stream_close app g w).2 in
  (_stream_close app g w).1 = Return tt
  ∧ gens w' = <[g := closed gen]> (gens w)
  ∧ procs w' = procs w ∧ live w' = live w
  ∧ trace w' = trace w
  ∧ (_stream_next app g w').1 = Return None
  ∧ procs (_stream_next app g w').2 = procs w.
Proof.
  intros Hgen Hcreated w'. subst w'.
  unfold _stream_close, _stream_next, live. run_M. rewrite Hgen. simpl.
  rewrite Hcreated. simpl.
  rewrite list_lookup_insert_eq by (by eapply lookup_lt_Some). simpl.
  by repeat split.
Qed.

Lemma close_before_start_leaves_process_witness :
  let w := Example.watching Example.boot 0 in
  (_stream_close Example.app 0 w).1 = Return tt
  ∧ live (_stream_close Example.app 0 w).2 = live w
  ∧ length (live w) = 1%nat.
Proof.
  intros w.
  destruct (close_before_start_leaves_process Example.app w 0 _
              eq_refl eq_refl) as (H1 & _ & _ & H2 & _).
  split; [exact H1|]. split; [exact H2|]. reflexivity.
Defined.

(** ** Starting the transcoder *)

(** The binary [watch] runs: [config.ffmpeg or 'ffmpeg']. *)
Definition binary (cfg : pyval) : pyval :=
  if truthy cfg then cfg else PyStr "ffmpeg".

Lemma py_or_binary (cfg : pyval) :
  py_or cfg (Return (PyStr "ffmpeg")) = Return (binary cfg).
Proof. unfold py_or, binary. by destruct (truthy cfg). Qed.

Definition logged_only (w w' : world) : Prop :=
  same_objects w w' ∧ launch w' = launch w
  ∧ ∃ msg, trace w' = (trace w ++ [Logged "HTTPInterface" msg])%list.

(** X6: the command line of the transcoder.  When the channel resolves to
    [uri] and the process launches, [watch] has started exactly
    [<binary> -i <uri> -codec copy -f mpegts pipe:1], where the binary is
    [config.ffmpeg], or "ffmpeg" when that option is None or empty; the new
    logging thread is a daemon on the pipe of that process, and the response
    streams from a generator that has not started. *)
Theorem watch_command_line (app : App) (channel_id : string) (w : world)
    (uri : string) (cfg : pyval) (ffmpeg : string) (child : Child) :
  get_station_stream_uri (locast_service app) channel_id = Return uri →
  getattr (config app) "ffmpeg" = Return cfg →
  binary cfg = PyStr ffmpeg →
  launch w [ffmpeg; "-i"; uri; "-codec"; "copy"; "-f"; "mpegts"; "pipe:1"]
  = Some child →
  let w' := (watch app channel_id w).2 in
  let pid := length (procs w) in
  (watch app channel_id w).1
  = Return {| body := Streamed (length (gens w)); status := 200;
              content_type := video_mpeg; location := None |}
  ∧ procs w'
    = (procs w
       ++ [started [ffmpeg; "-i"; uri; "-codec"; "copy"; "-f"; "mpegts";
                    "pipe:1"] child])%list
  ∧ (∃ fr, frames w' = (frames w ++ [fr])%list
           ∧ watch.ffmpeg_proc fr = pid ∧ watch.stop_thread fr = false)
  ∧ threads w'
    = (threads w
       ++ [{| log_output.stderr := pid; log_output.stop := length (frames w);
              log_output.daemon := true;
              log_output.state := THREAD_ENTRY |}])%list
  ∧ gens w'
    = (gens w
       ++ [{| _stream.outer := length (frames w);
              _stream.stop_thread := None;
              _stream.state := GEN_CREATED |}])%list
  ∧ (cfg = PyNone ∨ cfg = PyStr "" → ffmpeg = "ffmpeg").
Proof.
  intros Huri Hcfg Hbin Hlaunch w' pid. subst w' pid.
  unfold watch, subprocess_Popen, log_info, set_frames, set_threads.
  run_M. rewrite Huri. simpl. rewrite Hcfg. simpl.
  rewrite py_or_binary, Hbin. simpl. rewrite Hlaunch. simpl.
  repeat split; try done.
  - eexists. by repeat split.
  - intros [->| ->]; by injection Hbin as <-.
Qed.

Lemma watch_command_line_witness :
  args <$> procs (watch Example.app "104" Example.boot).2
  = [["ffmpeg"; "-i"; "https://cdn/104.m3u8"; "-codec"; "copy"; "-f";
      "mpegts"; "pipe:1"]].
Proof.
  destruct (watch_command_line Example.app "104" Example.boot
              "https://cdn/104.m3u8" PyNone "ffmpeg"
              {| child_stdout := [Byte.x00; Byte.x01; Byte.x02; Byte.x03;
                                  Byte.x04; Byte.x05];
                 child_stderr := [Some "frame=1"; Some "frame=2"];
                 child_fault := None |}
              eq_refl eq_refl eq_refl eq_refl) as (_ & Hprocs & _).
  rewrite Hprocs. reflexivity.
Defined.

(** X7: when the transcoder cannot be launched, [Popen] raises and [watch]
    ends there: the server answers 500, and no process, frame, thread or
    generator is left behind. *)
Theorem watch_launch_failure (app : App) (channel_id : string) (w : world)
    (uri : string) (cfg : pyval) (ffmpeg : string) :
  get_station_stream_uri (locast_service app) channel_id = Return uri →
  getattr (config app) "ffmpeg" = Return cfg →
  binary cfg = PyStr ffmpeg →
  launch w [ffmpeg; "-i"; uri; "-codec"; "copy"; "-f"; "mpegts"; "pipe:1"]
  = None →
  fails_clean (watch app channel_id)
    {| method := GET; route := watch_route channel_id; request_args := [] |}
    app w OSError.
Proof.
  intros Huri Hcfg Hbin Hlaunch. unfold fails_clean.
  unfold respond, step, full_dispatch_request, view. simpl.
  unfold watch, subprocess_Popen, log_info. run_M.
  rewrite Huri. simpl. rewrite Hcfg. simpl.
  rewrite py_or_binary, Hbin. simpl. rewrite Hlaunch. simpl.
  rewrite !spawns_app_logged. by repeat split.
Qed.

Lemma watch_launch_failure_witness :
  let w := {| launch := λ _, None; memory := 2 ^ 30; procs := [];
              frames := []; threads := []; gens := []; trace := [] |} in
  (watch Example.app "104" w).1 = Raise OSError
  ∧ same_objects w (watch Example.app "104" w).2.
Proof.
  intros w.
  destruct (watch_launch_failure Example.app "104" w "https://cdn/104.m3u8"
              PyNone "ffmpeg" eq_refl eq_refl eq_refl eq_refl)
    as (H1 & H2 & _).
  split; assumption.
Defined.

(** X8: a binary that is configured as something truthy that is not a
    string (a number, True) is refused by [Popen] with TypeError before
    anything is launched. *)
Theorem watch_binary_not_a_string (app : App) (channel_id : string)
    (w : world) (uri : string) (cfg : pyval) :
  get_station_stream_uri (locast_service app) channel_id = Return uri →
  getattr (config app) "ffmpeg" = Return cfg →
  truthy cfg = true → (∀ s, cfg ≠ PyStr s) →
  fails_clean (watch app channel_id)
    {| method := GET; route := watch_route channel_id; request_args := [] |}
    app w TypeError.
Proof.
  intros Huri Hcfg Htrue Hnot. unfold fails_clean.
  unfold respond, step, full_dispatch_request, view. simpl.
  unfold watch, subprocess_Popen, log_info. run_M.
  rewrite Huri. simpl. rewrite Hcfg. simpl.
  rewrite py_or_binary. unfold binary. rewrite Htrue. simpl.
  destruct cfg as [| | |s]; try done; [..|by destruct (Hnot s)];
    simpl; rewrite !spawns_app_logged; by repeat split.
Qed.

Lemma watch_binary_not_a_string_witness :
  (watch (with_config Example.app
            (<["ffmpeg" := PyInt 4]> Example.configuration))
     "104" Example.boot).1
  = Raise TypeError.
Proof.
  refine (proj1 (watch_binary_not_a_string
                   (with_config Example.app
                      (<["ffmpeg" := PyInt 4]> Example.configuration))
                   "104" Example.boot "https://cdn/104.m3u8" (PyInt 4)
                   eq_refl eq_refl eq_refl _)).
  discriminate.
Defined.

(** X9: playlist mode.  [watch_m3u] never touches a process, whatever the
    channel: when the channel resolves it answers with a 302 to the URI the
    service gave, and all it leaves in the world is its log line. *)
Theorem watch_m3u_redirects (app : App) (channel_id : string) (w : world)
    (uri : string) :
  get_station_stream_uri (locast_service app) channel_id = Return uri →
  let response :=
    respond {| the_app := app; the_world := w |}
            {| method := GET; route := watch_m3u_route channel_id;
               request_args := [] |} in
  (watch_m3u app channel_id w).1 = Return response
  ∧ status response = 302 ∧ location response = Some uri
  ∧ logged_only w (watch_m3u app channel_id w).2.
Proof.
  intros Huri response. subst response.
  unfold respond, full_dispatch_request, view. simpl.
  unfold watch_m3u, log_info, logged_only, same_objects. run_M.
  rewrite Huri. simpl. repeat split; try done. by eexists.
Qed.

Lemma watch_m3u_redirects_witness :
  location (respond Example.server0 (Example.get (watch_m3u_route "104")))
  = Some "https://cdn/104.m3u8".
Proof.
  apply (watch_m3u_redirects Example.app "104" Example.boot
           "https://cdn/104.m3u8" eq_refl).
Defined.

(** ** One entry per station *)

(** Running [f] over a list, left to right, until it raises. *)
Fixpoint for_each {A B} (f : A → result B) (l : list A) : result (list B) :=
  match l with
  | [] => Return []
  | a :: rest => b ← f a; bs ← for_each f rest; Return (b :: bs)
  end.

Fixpoint concat_str (l : list string) : string :=
  match l with
  | [] => ""
  | s :: rest => s +:+ concat_str rest
  end.

Lemma for_each_return {A B} (f : A → result B) (l : list A) (bs : list B) :
  for_each f l = Return bs ↔ Forall2 (λ a b, f a = Return b) l bs.
Proof.
  revert bs. induction l as [|a l IH]; intros bs; simpl.
  - split; [intros [= <-]; constructor|by inversion 1].
  - destruct (f a) as [b|e] eqn:Hfa; simpl.
    + destruct (for_each f l) as [bs'|e] eqn:Hl; simpl.
      * split.
        -- intros [= <-]. constructor; [done|]. by apply IH.
        -- inversion 1 as [|? b' ? bs'' Hb Hbs]; subst.
           apply IH in Hbs. congruence.
      * split; [done|]. inversion 1 as [|? b' ? bs'' Hb Hbs]; subst.
        apply IH in Hbs. congruence.
    + split; [done|]. inversion 1; congruence.
Qed.

Lemma for_each_raise {A B} (f : A → result B) (l : list A) (e : exn) :
  for_each f l = Raise e
  ↔ ∃ good bad rest, l = (good ++ bad :: rest)%list
                     ∧ Forall (λ a, is_raise (f a) = false) good
                     ∧ f bad = Raise e.
Proof.
  induction l as [|a l IH]; simpl.
  - split; [done|]. intros ([|??] & ? & ? & ? & _); done.
  - split.
    + destruct (f a) as [b|e'] eqn:Hfa; simpl.
      * destruct (for_each f l) as [bs'|e'] eqn:Hl; simpl; [done|].
        intros [= ->].
        destruct (proj1 IH eq_refl) as (good & bad & rest & -> & Hgood & Hbad).
        exists (a :: good), bad, rest. split; [done|].
        split; [|done]. constructor; [by rewrite Hfa|done].
      * intros [= ->]. by exists [], a, l.
    + intros ([|a' good] & bad & rest & Heq & Hgood & Hbad).
      * injection Heq as <- _. by rewrite Hbad.
      * injection Heq as <- ->. apply Forall_cons in Hgood as [Ha Hgood].
        assert (Hl : for_each f (good ++ bad :: rest) = Raise e)
          by (apply IH; by exists good, bad, rest).
        rewrite Hl. by destruct (f a).
Qed.

Lemma m3u_loop_for_each (app : App) (text : string) (stations : list Station) :
  m3u_loop app text stations
  = (entries ← for_each (m3u_station app) stations;
     Return (text +:+ concat_str entries)).
Proof.
  revert text. induction stations as [|station rest IH]; intros text; simpl.
  - by rewrite append_nil_r.
  - destruct (m3u_station app station) as [entry|e]; simpl; [|done].
    rewrite IH. destruct (for_each _ rest) as [entries|e]; simpl; [|done].
    by rewrite append_assoc.
Qed.

Lemma lineup_json_items_for_each (app : App) (stations : list Station) :
  lineup_json_items app stations
  = for_each (lineup_json_station app) stations.
Proof.
  induction stations as [|station rest IH]; simpl; [done|]. by rewrite IH.
Qed.

Definition m3u_header : string := "#EXTM3U" +:+ String "010" "".

(** X10: the playlist is the header followed by one entry per station, in
    the order of the service; one station that cannot be rendered (a missing
    "city", "id" or "channel", a callsign that is no string) makes the whole
    playlist fail, with the exception of the first such station. *)
Theorem m3u_one_entry_per_station (app : App) :
  (∀ text, m3u app = Return text
           ↔ ∃ entries,
               Forall2 (λ station entry, m3u_station app station = Return entry)
                 (get_stations (locast_service app)) entries
               ∧ text = m3u_header +:+ concat_str entries)
  ∧ (∀ e, m3u app = Raise e
          ↔ ∃ good bad rest,
              get_stations (locast_service app) = (good ++ bad :: rest)%list
              ∧ Forall (λ s, is_raise (m3u_station app s) = false) good
              ∧ m3u_station app bad = Raise e).
Proof.
  unfold m3u. rewrite m3u_loop_for_each. fold m3u_header. split.
  - intros text. split.
    + destruct (for_each _ _) as [entries|e] eqn:Hfor; simpl; [|done].
      intros [= <-]. exists entries. split; [|done].
      by apply for_each_return.
    + intros (entries & Hall & ->). apply for_each_return in Hall.
      by rewrite Hall.
  - intros e. rewrite <-for_each_raise.
    destruct (for_each _ _) as [entries|e']; simpl; split; congruence.
Qed.

(** X11: [/lineup.json] is a list with one object per station, in the order
    of the service, and it fails as a whole, with the exception of the
    first station that lacks "name", "id" or a channel. *)
Theorem lineup_json_one_entry_per_station (app : App) :
  (∀ j, lineup_json app = Return j
        ↔ ∃ items,
            Forall2 (λ station item,
                       lineup_json_station app station = Return item)
              (get_stations (locast_service app)) items
            ∧ j = JList items)
  ∧ (∀ e, lineup_json app = Raise e
          ↔ ∃ good bad rest,
              get_stations (locast_service app) = (good ++ bad :: rest)%list
              ∧ Forall (λ s, is_raise (lineup_json_station app s) = false)
                  good
              ∧ lineup_json_station app bad = Raise e).
Proof.
  unfold lineup_json. rewrite lineup_json_items_for_each. split.
  - intros j. split.
    + destruct (for_each _ _) as [items|e] eqn:Hfor; simpl; [|done].
      intros [= <-]. exists items. split; [|done]. by apply for_each_return.
    + intros (items & Hall & ->). apply for_each_return in Hall.
      by rewrite Hall.
  - intros e. rewrite <-for_each_raise.
    destruct (for_each _ _) as [items|e']; simpl; split; congruence.
Qed.

(** ** What never touches the frames of [watch] and the threads *)

(** A computation that leaves the frames of [watch] and the table of
    threads as they are, whatever it returns or raises. *)
Definition quiet {A} (m : M A) : Prop :=
  ∀ w, frames (m w).2 = frames w ∧ threads (m w).2 = threads w.

Lemma quiet_ret {A} (a : A) : quiet (mret a).
Proof. by intros w. Qed.

Lemma quiet_bind {A B} (m : M A) (f : A → M B) :
  quiet m → (∀ a, quiet (f a)) → quiet (m ≫= f).
Proof.
  intros Hm Hf w. unfold mbind, M_bind.
  destruct (Hm w) as [Hfr Hth]. destruct (m w) as [[a|e] w1]; simpl in *.
  - destruct (Hf a w1) as [Hfr' Hth']. by rewrite Hfr', Hth'.
  - done.
Qed.

Lemma quiet_try_except {A} (body handler : M A) :
  quiet body → quiet handler → quiet (try_except body handler).
Proof.
  intros Hb Hh w. unfold try_except.
  destruct (Hb w) as [Hfr Hth]. destruct (body w) as [[a|e] w1]; simpl in *.
  - done.
  - destruct (Hh w1) as [Hfr' Hth']. by rewrite Hfr', Hth'.
Qed.

Lemma quiet_lift {A} (r : result A) : quiet (lift r).
Proof. by intros w. Qed.

Lemma quiet_raise {A} (e : exn) : quiet (raise (A:=A) e).
Proof. by intros w. Qed.

Lemma quiet_deref {A} (o : option A) : quiet (deref o).
Proof. by destruct o; intros w. Qed.

Lemma quiet_get_world : quiet get_world.
Proof. by intros w. Qed.

Lemma quiet_emit (e : event) : quiet (emit e).
Proof. by intros w. Qed.

Lemma quiet_set_procs (ps : list Popen) : quiet (set_procs ps).
Proof. by intros w. Qed.

Lemma quiet_set_gens (gs : list _stream.locals) : quiet (set_gens gs).
Proof. by intros w. Qed.

Lemma quiet_allocate (k : nat) : quiet (allocate k).
Proof. intros w. unfold allocate. by repeat case_match. Qed.

Create HintDb quiet.
#[local] Hint Resolve quiet_ret quiet_lift quiet_raise quiet_deref
  quiet_get_world quiet_emit quiet_set_procs quiet_set_gens
  quiet_allocate : quiet.

(** Walks a computation: binds, handlers and case distinctions. *)
Ltac quiet_walk :=
  repeat first
    [ progress intros
    | apply quiet_bind
    | apply quiet_try_except
    | match goal with
      | |- quiet (match ?x with _ => _ end) => destruct x
      | |- quiet (if ?x then _ else _) => destruct x
      end
    | solve [auto with quiet] ].

Lemma quiet_terminate (pid : nat) : quiet (terminate pid).
Proof. unfold terminate. quiet_walk. Qed.

Lemma quiet_communicate (pid : nat) : quiet (communicate pid).
Proof. unfold communicate. quiet_walk. Qed.

Lemma quiet_stdout_read (pid : nat) (n : pyval) : quiet (stdout_read pid n).
Proof. unfold stdout_read. quiet_walk. Qed.

Lemma quiet_stderr_readline_decode (pid : nat) :
  quiet (stderr_readline_decode pid).
Proof. unfold stderr_readline_decode. quiet_walk. Qed.

#[local] Hint Resolve quiet_terminate quiet_communicate quiet_stdout_read
  quiet_stderr_readline_decode : quiet.

Lemma quiet_stream_resume (app : App) (g : nat) (thrown : option exn) :
  quiet (_stream_resume app g thrown).
Proof.
  unfold _stream_resume, _stream_try, _stream_except, set_gen. quiet_walk.
Qed.

Lemma quiet_stream_next (app : App) (g : nat) : quiet (_stream_next app g).
Proof.
  unfold _stream_next. quiet_walk; apply quiet_stream_resume.
Qed.

Lemma quiet_stream_close (app : App) (g : nat) : quiet (_stream_close app g).
Proof.
  unfold _stream_close, set_gen. quiet_walk; apply quiet_stream_resume.
Qed.

Lemma quiet_log_output_body (th : log_output.locals) :
  quiet (log_output_body th).
Proof. unfold log_output_body, log_info. quiet_walk. Qed.

Lemma quiet_output_config (app : App) : quiet (output_config app).
Proof. unfold output_config. quiet_walk. Qed.

Lemma quiet_watch_m3u (app : App) (channel_id : string) :
  quiet (watch_m3u app channel_id).
Proof. unfold watch_m3u, log_info. quiet_walk. Qed.

(** ** The stop flag in every run *)

(** Every frame of [watch] still has [stop_thread] False. *)
Definition never_stopped (w : world) : Prop :=
  Forall (λ fr, watch.stop_thread fr = false) (frames w).

(** [w'] has the frames and threads of [w], and maybe more after them; the
    new frames have [stop_thread] False. *)
Definition grows (w w' : world) : Prop :=
  ∃ fs ts, frames w' = (frames w ++ fs)%list
           ∧ Forall (λ fr, watch.stop_thread fr = false) fs
           ∧ threads w' = (threads w ++ ts)%list.

Lemma quiet_grows {A} (m : M A) (w : world) : quiet m → grows w (m w).2.
Proof.
  intros Hq. destruct (Hq w) as [Hfr Hth]. exists [], [].
  by rewrite !app_nil_r.
Qed.

Lemma grows_same (w w' : world) :
  frames w' = frames w → threads w' = threads w → grows w w'.
Proof. intros Hfr Hth. exists [], []. by rewrite !app_nil_r. Qed.

Lemma grows_refl (w : world) : grows w w.
Proof. by apply grows_same. Qed.

Lemma watch_grows (app : App) (channel_id : string) (w : world) :
  grows w (watch app channel_id w).2.
Proof.
  unfold watch, subprocess_Popen, log_info, set_frames, set_threads.
  run_M.
  destruct (get_station_stream_uri _ _) as [uri|]; simpl;
    [|by apply grows_same].
  destruct (getattr (config app) "ffmpeg") as [cfg|]; simpl;
    [|by apply grows_same].
  rewrite py_or_binary. simpl.
  destruct (binary cfg) as [| | |ffmpeg]; simpl; try by apply grows_same.
  destruct (launch w _) as [child|]; simpl; [|by apply grows_same].
  eexists [_], [_]. simpl. split; [done|]. split; [|done].
  by constructor.
Qed.

Lemma view_grows (app : App) (request : Request) (w : world) :
  grows w (view app request w).2.
Proof.
  unfold view.
  destruct (route request); simpl; unfold mbind, M_bind, mret, M_ret, lift;
    simpl; try apply grows_refl.
  - destruct (discover_json app); apply grows_refl.
  - destruct (m3u app); apply grows_refl.
  - destruct (lineup_json app); apply grows_refl.
  - by apply grows_same.
  - unfold lineup_post. destruct (py_eq _ _); apply grows_refl.
  - pose proof (quiet_grows _ w (quiet_watch_m3u app channel_id)) as H.
    by destruct (watch_m3u app channel_id w) as [[?|?] ?].
  - pose proof (watch_grows app channel_id w) as H.
    by destruct (watch app channel_id w) as [[?|?] ?].
Qed.

Lemma serve_grows (s : server) (request : Request) :
  grows (the_world s) (the_world (step s (Serve request))).
Proof.
  simpl. unfold full_dispatch_request.
  destruct (allowed request); [|apply grows_refl].
  pose proof (view_grows (the_app s) request (the_world s)) as H.
  by destruct (view _ _ _) as [[[app' response]|e] w'].
Qed.

Lemma grows_never_stopped (w w' : world) :
  grows w w' → never_stopped w → never_stopped w'.
Proof.
  intros (fs & ts & Hfr & Hfs & _) Hw. unfold never_stopped.
  rewrite Hfr. by apply Forall_app.
Qed.

(** A thread that is in its loop, together with where it reads. *)
Definition looping (w : world) (t : nat) (th : log_output.locals) : Prop :=
  threads w !! t = Some th ∧ log_output.state th = THREAD_LOOP.

Lemma grows_looping (w w' : world) (t : nat) (th : log_output.locals) :
  grows w w' → looping w t th → looping w' t th.
Proof.
  intros (fs & ts & _ & _ & Hth) [Ht Hloop]. split; [|done].
  rewrite Hth. by apply lookup_app_l_Some.
Qed.

Lemma schedule_step (s : server) (t t' : nat) (th : log_output.locals) :
  never_stopped (the_world s) → looping (the_world s) t th →
  never_stopped (the_world (step s (Schedule t')))
  ∧ looping (the_world (step s (Schedule t'))) t th.
Proof.
  intros Hns [Ht Hloop]. destruct s as [app w]. simpl in *.
  unfold log_output_step. run_M.
  destruct (threads w !! t') as [th'|] eqn:Ht'; simpl; [|done].
  destruct (log_output.state th') eqn:Hstate; simpl.
  - assert (t' ≠ t) by (intros ->; congruence).
    unfold set_thread_state. run_M.
    repeat case_match; simpl; (split; [done|]); (split; [|done]); simpl;
      by rewrite list_lookup_insert_ne.
  - unfold stop_call. run_M.
    destruct (frames w !! log_output.stop th') as [fr|] eqn:Hfr; simpl;
      [|done].
    assert (Hstop : watch.stop_thread fr = false).
    { unfold never_stopped in Hns. rewrite Forall_lookup in Hns.
      by apply (Hns _ _ Hfr). }
    rewrite Hstop.
    destruct (quiet_log_output_body th' w) as [Hfr' Hth'].
    unfold never_stopped, looping. by rewrite Hfr', Hth'.
  - done.
Qed.

Lemma step_keeps_looping (s : server) (a : action) (t : nat)
    (th : log_output.locals) :
  never_stopped (the_world s) → looping (the_world s) t th →
  never_stopped (the_world (step s a)) ∧ looping (the_world (step s a)) t th.
Proof.
  intros Hns Hloop. destruct a as [request|g|g|t'].
  - pose proof (serve_grows s request) as Hg.
    split; [by eapply grows_never_stopped|by eapply grows_looping].
  - pose proof (quiet_grows _ (the_world s)
                  (quiet_stream_next (the_app s) g)) as Hg.
    split; [by eapply grows_never_stopped|by eapply grows_looping].
  - pose proof (quiet_grows _ (the_world s)
                  (quiet_stream_close (the_app s) g)) as Hg.
    split; [by eapply grows_never_stopped|by eapply grows_looping].
  - by apply schedule_step.
Qed.

(** X12: the stop flag in every run.  From a state in which the flag of
    every frame of [watch] is False (at start there is no frame), whatever
    the server then does, the flag of every frame is False, and a logging
    thread that is in its loop is still in its loop, with the same pipe to
    read: nothing the application does ever ends such a thread. *)
Theorem looping_thread_never_ends (s : server) (l : list action) (t : nat)
    (th : log_output.locals) :
  never_stopped (the_world s) →
  looping (the_world s) t th →
  never_stopped (the_world (run s l)) ∧ looping (the_world (run s l)) t th.
Proof.
  revert s. induction l as [|a l IH]; intros s Hns Hloop; [done|].
  change (run s (a :: l)) with (run (step s a) l).
  destruct (step_keeps_looping s a t th Hns Hloop) as [Hns' Hloop'].
  by apply IH.
Qed.

Lemma looping_thread_never_ends_witness :
  let s := run Example.server0
             [Serve (Example.get (watch_route "104")); Schedule 0] in
  looping (the_world (run s [Pull 0; Hangup 0; Schedule 0;
                             Serve (Example.get (watch_route "104"))]))
    0 {| log_output.stderr := 0; log_output.stop := 0;
         log_output.daemon := true; log_output.state := THREAD_LOOP |}.
Proof.
  intros s.
  refine (proj2 (looping_thread_never_ends s _ 0 _ _ _)).
  - repeat constructor.
  - split; reflexivity.
Defined.

(** ** The logging thread at work *)

Definition thread_done (th : log_output.locals) : log_output.locals :=
  {| log_output.stderr := log_output.stderr th;
     log_output.stop := log_output.stop th;
     log_output.daemon := log_output.daemon th;
     log_output.state := THREAD_DONE |}.

Definition with_threads (w : world) (ts : list log_output.locals) : world :=
  {| launch := launch w; memory := memory w; procs := procs w; frames := frames w;
     threads := ts; gens := gens w; trace := trace w |}.

(** X15: with [config.verbose] a number that is not positive, the logging
    thread returns at once: its first step ends it, and however often it is
    scheduled it reads nothing from the pipe and writes nothing to the
    log. *)
Theorem quiet_thread_returns (app : App) (w : world) (t : nat)
    (th : log_output.locals) (v : Z) (k : nat) :
  threads w !! t = Some th →
  log_output.state th = THREAD_ENTRY →
  getattr (config app) "verbose" = Return (PyInt v) → (v ≤ 0)%Z →
  the_world (run {| the_app := app; the_world := w |}
               (replicate (S k) (Schedule t)))
  = with_threads w (<[t := thread_done th]> (threads w)).
Proof.
  intros Ht Hentry Hv Hle.
  assert (Hfirst : step {| the_app := app; the_world := w |} (Schedule t)
                   = {| the_app := app;
                        the_world := with_threads w
                                       (<[t := thread_done th]> (threads w))
                     |}).
  { simpl. f_equal. unfold log_output_step, set_thread_state. run_M.
    rewrite Ht. simpl. rewrite Hentry, Hv. simpl.
    by destruct (Z.ltb_spec 0 v) as [|_]; [lia|]. }
  change (replicate (S k) (Schedule t))
    with (Schedule t :: replicate k (Schedule t)).
  change (run ?s (?a :: ?l)) with (run (step s a) l). rewrite Hfirst.
  rewrite run_schedule_fixed; [done|].
  simpl. f_equal. unfold log_output_step. run_M.
  rewrite list_lookup_insert_eq by (by eapply lookup_lt_Some). done.
Qed.

Lemma quiet_thread_returns_witness :
  let app := with_config Example.app
               (<["verbose" := PyInt 0]> Example.configuration) in
  let w := (watch app "104" Example.boot).2 in
  trace (the_world (run {| the_app := app; the_world := w |}
                      (replicate 3 (Schedule 0))))
  = trace w.
Proof.
  intros app w.
  rewrite (quiet_thread_returns app w 0 _ 0 2 eq_refl eq_refl eq_refl);
    [reflexivity | lia].
Defined.

(** What one line of the pipe adds to the log. *)
Definition logged_line (line : option string) : list event :=
  match line with
  | Some s => if String.eqb (rstrip s) "" then []
              else [Logged "ffmpeg" (rstrip s)]
  | None => []
  end.

Definition popen_stderr (p : Popen) (lines : list (option string)) : Popen :=
  {| args := args p; stdout := stdout p; stdout_fault := stdout_fault p;
     stderr := lines; terminated := terminated p; reaped := reaped p |}.

(** The world after the thread has taken [k] lines from process [pid]. *)
Definition logged_world (w : world) (pid : nat) (p : Popen) (k : nat)
    : world :=
  {| launch := launch w; memory := memory w;
     procs := <[pid := popen_stderr p (drop k (stderr p))]> (procs w);
     frames := frames w; threads := threads w; gens := gens w;
     trace := trace w ++ concat (logged_line <$> take k (stderr p)) |}.

Lemma log_output_loop_step (app : App) (w : world) (t : nat)
    (th : log_output.locals) (fr : watch.locals) (p : Popen) :
  threads w !! t = Some th →
  log_output.state th = THREAD_LOOP →
  frames w !! log_output.stop th = Some fr →
  watch.stop_thread fr = false →
  procs w !! log_output.stderr th = Some p →
  reaped p = false →
  (log_output_step app t w).2 = logged_world w (log_output.stderr th) p 1.
Proof.
  intros Ht Hloop Hfr Hstop Hp Hlive.
  unfold log_output_step, stop_call, log_output_body, try_except,
    stderr_readline_decode, log_info. run_M.
  rewrite Ht. simpl. rewrite Hloop, Hfr. simpl. rewrite Hstop, Hp. simpl.
  unfold logged_world, popen_stderr. rewrite Hlive.
  destruct (stderr p) as [|[line|] rest] eqn:Herr; simpl.
  - rewrite app_nil_r. rewrite <-Herr, <-Hlive.
    rewrite list_insert_id; [by destruct w|]. rewrite Hp. f_equal.
    by destruct p.
  - rewrite drop_0. destruct (String.eqb (rstrip line) ""); simpl;
      by rewrite ?app_nil_r.
  - by rewrite drop_0, app_nil_r.
Qed.

(** X16: what the logging thread logs.  While it is in its loop and the
    process is not reaped, each step takes the next line of the pipe; the
    log gains, in order, the lines that decode and are not blank, stripped
    on the right, under the logger "ffmpeg"; a line that does not decode is
    dropped and the thread goes on. *)
Theorem log_output_logs_lines (app : App) (t : nat) (th : log_output.locals)
    (fr : watch.locals) (k : nat) (w : world) (p : Popen) :
  threads w !! t = Some th →
  frames w !! log_output.stop th = Some fr →
  procs w !! log_output.stderr th = Some p →
  reaped p = false →
  log_output.state th = THREAD_LOOP →
  watch.stop_thread fr = false →
  the_world (run {| the_app := app; the_world := w |}
               (replicate k (Schedule t)))
  = logged_world w (log_output.stderr th) p k.
Proof.
  intros Ht Hfr Hp Hlive Hloop Hstop. revert w p Ht Hfr Hp Hlive.
  induction k as [|k IH]; intros w p Ht Hfr Hp Hlive.
  - simpl. unfold logged_world, popen_stderr. simpl.
    rewrite app_nil_r, drop_0.
    rewrite list_insert_id; [by destruct w|]. rewrite Hp. f_equal.
    by destruct p.
  - change (replicate (S k) (Schedule t))
      with (Schedule t :: replicate k (Schedule t)).
    change (run ?s (?a :: ?l)) with (run (step s a) l).
    simpl step.
    rewrite (log_output_loop_step app w t th fr p Ht Hloop Hfr Hstop Hp
               Hlive).
    rewrite (IH _ (popen_stderr p (drop 1 (stderr p)))); simpl; try done.
    2:{ apply list_lookup_insert_eq. by eapply lookup_lt_Some. }
    unfold logged_world, popen_stderr. simpl.
    rewrite list_insert_insert_eq, drop_drop, <-app_assoc. do 2 f_equal.
    rewrite <-concat_app, <-fmap_app.
    by rewrite (take_take_drop (stderr p) 1 k).
Qed.

Lemma log_output_logs_lines_witness :
  let w := the_world (run Example.server0
                        [Serve (Example.get (watch_route "104"));
                         Schedule 0]) in
  trace (the_world (run {| the_app := Example.app; the_world := w |}
                      (replicate 3 (Schedule 0))))
  = (trace w ++ [Logged "ffmpeg" "frame=1"; Logged "ffmpeg" "frame=2"])%list.
Proof.
  intros w.
  rewrite (log_output_logs_lines Example.app 0 _ _ 3 w _
             eq_refl eq_refl eq_refl eq_refl eq_refl eq_refl).
  reflexivity.
Defined.

(** ** Methods *)

(** X17: only [/lineup.post] is registered for POST.  A POST to any other
    route is answered 405 by the dispatcher and no view runs: the server is
    left exactly as it was (no process is started by a POST to a watch
    route, nothing is logged). *)
Theorem post_is_for_lineup_post_only (s : server) (r : Route)
    (args : list (string * string)) :
  r ≠ lineup_post_route →
  let request := {| method := POST; route := r; request_args := args |} in
  respond s request = method_not_allowed
  ∧ status (respond s request) = 405
  ∧ step s (Serve request) = s.
Proof.
  intros Hr request. subst request.
  unfold respond, step, full_dispatch_request, allowed. simpl.
  destruct r; try done; by destruct s.
Qed.

Lemma post_is_for_lineup_post_only_witness :
  step Example.server0
    (Serve {| method := POST; route := watch_route "104";
              request_args := [] |})
  = Example.server0.
Proof.
  apply (post_is_for_lineup_post_only Example.server0 (watch_route "104") []).
  discriminate.
Defined.

(** ** The addresses the device gives out *)

(** [d[name]] in a dictionary literal. *)
Fixpoint assoc (name : string) (l : list (string * json)) : option json :=
  match l with
  | [] => None
  | (k, v) :: rest => if String.eqb k name then Some v else assoc name rest
  end.

Definition field (name : string) (j : json) : option json :=
  match j with
  | JDict l => assoc name l
  | _ => None
  end.



(** ** The group title of the playlist *)

Lemma groups_join (city : pyval) (network : bool) (groups : string) :
  str_join ";" (filter (λ v, truthy v = true)
                  [city; PyStr (if network then "Network" else "")])
  = Return groups →
  groups = match truthy city, network with
           | true, true => py_str city +:+ ";Network"
           | true, false => py_str city
           | false, true => "Network"
           | false, false => ""
           end
  ∧ (truthy city = true → ∃ c, city = PyStr c).
Proof.
  rewrite filter_cons. destruct (truthy city) eqn:Hcity.
  - rewrite decide_True by done.
    destruct network; vm_compute filter;
      destruct city as [| | |c]; try done; intros [= <-]; eauto.
  - rewrite decide_False by done.
    destruct network; vm_compute filter; by intros [= <-].
Qed.



(** ** What [/config] prints *)

(** X20: the mask is for the response only.  [output_config] prints the
    configuration itself, not the masked copy: the one thing it adds to the
    output of the process is the configuration with the configured password
    in it, and the configuration the application holds is not changed (the
    next [/config] masks and prints the same). *)
Theorem output_config_prints_password (s : server) (password : pyval) :
  config (the_app s) !! "password" = Some password →
  let s' := step s (Serve config_request) in
  trace (the_world s')
  = (trace (the_world s) ++ [Printed (config (the_app s))])%list
  ∧ (∀ c, Printed c ∈ trace (the_world s') →
          Printed c ∈ trace (the_world s) ∨ c !! "password" = Some password)
  ∧ the_app s' = the_app s
  ∧ same_objects (the_world s) (the_world s').
Proof.
  intros Hpw s'. subst s'. destruct s as [app w]. simpl in *.
  split; [done|]. split; [|done].
  intros c [Hin|Hin]%elem_of_app; [by left|right].
  apply list_elem_of_singleton in Hin. by injection Hin as ->.
Qed.

Lemma output_config_prints_password_witness :
  trace (the_world (step Example.server0 (Serve config_request)))
  = [Printed Example.configuration]
  ∧ Example.configuration !! "password" = Some (PyStr "hunter2").
Proof.
  split; [|reflexivity].
  apply (output_config_prints_password Example.server0 (PyStr "hunter2")).
  reflexivity.
Defined.
